(** * pass-import: JSON header matcher and 1PIF importer

    A shallow embedding of [pass_import/formats/json.py]: the structural
    header matcher of class [JSON] and the 1PIF normaliser, detector and
    entry extractor of class [PIF].

    Python values are modelled as they reach the code: text is a list of
    Unicode code points, a decoded JSON document is a tree of atoms, lists
    and insertion-ordered dicts, and a raised exception is an explicit
    [Raise] result. *)

From Stdlib Require Import ZArith NArith Lia Ascii String SpecFloat.
From stdpp Require Import base decidable option list strings gmap.

(** ** Text *)

(** A Python [str]: a sequence of code points. *)
Definition str : Type := list N.

(** A [str] literal written with an ASCII string. *)
Definition u (s : string) : str := map N_of_ascii (list_ascii_of_string s).
Arguments u _%_string.

(** The same, with every apostrophe standing for a double quote, so that
    JSON text can be written down legibly. *)
Definition js (s : string) : str :=
  map (fun c => if (c =? 39)%N then 34%N else c) (u s).
Arguments js _%_string.

Definition str_eqb (a b : str) : bool := bool_decide (a = b).

(** ** Exceptions *)

Inductive exn : Type :=
| JSONDecodeError
| UnicodeDecodeError
| AttributeError
| TypeError
| IndexError.

Inductive result (A : Type) : Type :=
| Ok (a : A)
| Raise (e : exn).
Arguments Ok {A} a.
Arguments Raise {A} e.

#[global] Instance result_ret : MRet result := fun A a => Ok a.
#[global] Instance result_bind : MBind result :=
  fun A B f m => match m with Ok a => f a | Raise e => Raise e end.

(** ** Python values produced by [json.loads] *)

(** Atoms: [None], [bool], [int], [float] (an IEEE binary64 value) and
    [str]. *)
Inductive atom : Type :=
| ANone
| ABool (b : bool)
| AInt (z : Z)
| AFloat (f : spec_float)
| AStr (s : str).

Unset Elimination Schemes.
Inductive json : Type :=
| JAtom (a : atom)
| JList (items : list json)
| JDict (kvs : list (str * json)).
Set Elimination Schemes.

Abbreviation JNull := (JAtom ANone).
Abbreviation JBool b := (JAtom (ABool b)).
Abbreviation JInt z := (JAtom (AInt z)).
Abbreviation JFloat f := (JAtom (AFloat f)).
Abbreviation JStr s := (JAtom (AStr s)).

(** Exact comparison of a binary64 value with an integer. *)
Definition float_eq_Z (f : spec_float) (z : Z) : bool :=
  match f with
  | S754_zero _ => (z =? 0)%Z
  | S754_finite s m e =>
      let v := if s then Z.neg m else Z.pos m in
      if (0 <=? e)%Z then (z =? v * 2 ^ e)%Z else (z * 2 ^ (- e) =? v)%Z
  | _ => false
  end.

Definition Z_of_bool (b : bool) : Z := if b then 1%Z else 0%Z.

(** Python's [==] on atoms: numbers compare by value across [bool], [int]
    and [float]; NaN is equal to nothing. *)
Definition atom_eq (a b : atom) : bool :=
  match a, b with
  | ANone, ANone => true
  | AStr s, AStr t => str_eqb s t
  | ABool x, ABool y => (Z_of_bool x =? Z_of_bool y)%Z
  | ABool x, AInt z | AInt z, ABool x => (Z_of_bool x =? z)%Z
  | AInt x, AInt y => (x =? y)%Z
  | ABool x, AFloat f | AFloat f, ABool x => float_eq_Z f (Z_of_bool x)
  | AInt z, AFloat f | AFloat f, AInt z => float_eq_Z f z
  | AFloat f, AFloat g => SFeqb f g
  | _, _ => false
  end.

Definition is_nan (a : atom) : bool :=
  match a with AFloat S754_nan => true | _ => false end.

(** Key comparison inside a [dict]: identity first, then [==]. Every NaN
    that [json.loads] returns is the one module-level constant, so two NaN
    keys are the same object. *)
Definition key_eq (a b : atom) : bool := (is_nan a && is_nan b) || atom_eq a b.

(** Truth value of an object in a condition. *)
Definition truthy (v : json) : bool :=
  match v with
  | JAtom ANone => false
  | JAtom (ABool b) => b
  | JAtom (AInt z) => negb (z =? 0)%Z
  | JAtom (AFloat (S754_zero _)) => false
  | JAtom (AFloat _) => true
  | JAtom (AStr s) => negb (str_eqb s [])
  | JList l => negb (Nat.eqb (length l) 0)
  | JDict d => negb (Nat.eqb (length d) 0)
  end.

(** ** Insertion-ordered dicts *)

Section Dict.
Context {K V : Type} (eqb : K -> K -> bool).

Fixpoint dict_get (d : list (K * V)) (k : K) : option V :=
  match d with
  | [] => None
  | (k', v) :: rest => if eqb k' k then Some v else dict_get rest k
  end.

(** [d[k] = v]: an existing key keeps its position (and its key object),
    a new key goes last. *)
Fixpoint dict_set (d : list (K * V)) (k : K) (v : V) : list (K * V) :=
  match d with
  | [] => [(k, v)]
  | (k', v') :: rest =>
      if eqb k' k then (k', v) :: rest else (k', v') :: dict_set rest k v
  end.

(** [del d[k]]: a dict binds a key once; the model drops every binding
    of [k]. *)
Fixpoint dict_del (d : list (K * V)) (k : K) : list (K * V) :=
  match d with
  | [] => []
  | (k', v') :: rest =>
      if eqb k' k then dict_del rest k else (k', v') :: dict_del rest k
  end.

(** [d.update(e)] *)
Definition dict_update (d e : list (K * V)) : list (K * V) :=
  fold_left (fun acc kv => dict_set acc kv.1 kv.2) e d.
End Dict.

(** [x.get(k, default)] on an arbitrary value: only a dict has [get]. *)
Definition py_get (x : json) (k : str) (dflt : json) : result json :=
  match x with
  | JDict kvs => Ok (default dflt (dict_get str_eqb kvs k))
  | _ => Raise AttributeError
  end.

(** ** The structural matcher: [JSON._ensureheader] *)

(** The classes a header can name. [TOther] stands for any class that has
    no instance among decoded JSON values. *)
Inductive pytype : Type :=
| TObject | TNoneType | TBool | TInt | TFloat | TStr | TList | TDict | TOther.

(** A header: a class, a literal atom, a list or a dict of headers. *)
Unset Elimination Schemes.
Inductive header : Type :=
| HType (t : pytype)
| HAtom (a : atom)
| HList (hs : list header)
| HDict (hs : list (str * header)).
Set Elimination Schemes.

(** [isinstance(data, t)]; [bool] is a subclass of [int]. *)
Definition isinstance (data : json) (t : pytype) : bool :=
  match t, data with
  | TObject, _ => true
  | TNoneType, JAtom ANone => true
  | TBool, JAtom (ABool _) => true
  | TInt, JAtom (ABool _) | TInt, JAtom (AInt _) => true
  | TFloat, JAtom (AFloat _) => true
  | TStr, JAtom (AStr _) => true
  | TList, JList _ => true
  | TDict, JDict _ => true
  | _, _ => false
  end.

Definition is_None (data : json) : bool :=
  match data with JAtom ANone => true | _ => false end.

(** A [for] loop whose body returns [False] as soon as one test fails and
    that is followed by [return True]; an exception raised by a test ends
    it. *)
Definition all_ok {A : Type} (test : A -> result bool)
  : list A -> result bool :=
  fix go (l : list A) : result bool :=
    match l with
    | [] => Ok true
    | x :: rest =>
        match test x with
        | Ok true => go rest
        | Ok false => Ok false
        | Raise e => Raise e
        end
    end.

Fixpoint ensureheader (data : json) (hdr : header) {struct hdr} : result bool :=
  match hdr with
  | HType t =>
      (* if isinstance(header, type) *)
      if negb (is_None data) && negb (isinstance data t) then Ok false
      else Ok true
  | _ =>
      match data with
      | JList items =>
          (* if isinstance(data, list) *)
          match hdr with
          | HList hs =>
              all_ok
                (fun item =>
                   match hs with
                   | [] => Raise IndexError              (* header[0] *)
                   | h0 :: _ => ensureheader item h0
                   end)
                items
          | _ => Ok false
          end
      | JDict kvs =>
          (* if isinstance(data, dict) *)
          match hdr with
          | HDict hs =>
              all_ok
                (fun kv =>
                   match dict_get str_eqb kvs kv.1 with
                   | None => Ok false                    (* key not in data *)
                   | Some d => ensureheader d kv.2
                   end)
                hs
          | _ => Ok false
          end
      | JAtom a =>
          (* return data == header *)
          match hdr with
          | HAtom b => Ok (atom_eq a b)
          | _ => Ok false
          end
      end
  end.

(** *** Edits of a document, used to state how the matcher reacts to them *)

(** A step into a document: the value under a key, or an element of a
    list. *)
Inductive step : Type :=
| SKey (k : str)
| SIdx (i : nat).

(** The document [d] with [k: v] set in the object found by following
    [path]; [None] when the path does not lead to an object. *)
Fixpoint add_key_at (path : list step) (k : str) (v : json) (d : json)
  : option json :=
  match path, d with
  | [], JDict kvs => Some (JDict (dict_set str_eqb kvs k v))
  | SKey k' :: path', JDict kvs =>
      match dict_get str_eqb kvs k' with
      | Some d1 =>
          match add_key_at path' k v d1 with
          | Some d1' => Some (JDict (dict_set str_eqb kvs k' d1'))
          | None => None
          end
      | None => None
      end
  | SIdx i :: path', JList l =>
      match l !! i with
      | Some d1 =>
          match add_key_at path' k v d1 with
          | Some d1' => Some (JList (<[i := d1']> l))
          | None => None
          end
      | None => None
      end
  | _, _ => None
  end.

(** Every key that occurs in a header, at any depth. *)
Fixpoint header_keys (h : header) : list str :=
  match h with
  | HList hs => concat (map header_keys hs)
  | HDict hs => concat (map (fun kv => kv.1 :: header_keys kv.2) hs)
  | _ => []
  end.

(** Headers in which every list template has its element header. *)
Fixpoint templates_nonempty (h : header) : bool :=
  match h with
  | HList hs =>
      negb (Nat.eqb (length hs) 0) && forallb templates_nonempty hs
  | HDict hs => forallb (fun kv => templates_nonempty kv.2) hs
  | _ => true
  end.

(** ** [json.loads]

    The decoder of Python's [json] package with its default settings:
    JSON whitespace is space, tab, line feed and carriage return; strings
    are scanned in strict mode; [NaN], [Infinity] and [-Infinity] are
    accepted; a repeated key keeps its first position and its last value.
    Every failure of the decoder is a [JSONDecodeError]. The recursion
    limit of the interpreter is not modelled: nesting of any depth is
    decoded. *)

Definition is_ws (c : N) : bool :=
  ((c =? 32) || (c =? 9) || (c =? 10) || (c =? 13))%N.

Fixpoint skip_ws (s : str) : str :=
  match s with
  | c :: r => if is_ws c then skip_ws r else s
  | [] => []
  end.

Fixpoint strip_prefix (p s : str) : option str :=
  match p, s with
  | [], _ => Some s
  | a :: p', b :: s' => if (a =? b)%N then strip_prefix p' s' else None
  | _ :: _, [] => None
  end.

Definition is_digit (c : N) : bool := ((48 <=? c) && (c <=? 57))%N.

Fixpoint take_digits (s : str) : str * str :=
  match s with
  | c :: r =>
      if is_digit c then let '(ds, r') := take_digits r in (c :: ds, r')
      else ([], s)
  | [] => ([], [])
  end.

Definition Z_of_digits (ds : str) : Z :=
  fold_left (fun acc c => (10 * acc + Z.of_N (c - 48))%Z) ds 0%Z.

(** [float(text)] for a decimal literal [m * 10 ^ e10]: the nearest
    binary64 value, ties to even. *)
Definition float_of_decimal (neg : bool) (m e10 : Z) : spec_float :=
  match m with
  | Z0 => S754_zero neg
  | Zpos _ =>
      let '(num, den) :=
        if (0 <=? e10)%Z then (m * 10 ^ e10, 1)%Z else (m, 10 ^ (- e10))%Z in
      let '(q, e, l) := SFdiv_core_binary 53 1024 num 0 den 0 in
      binary_round_aux 53 1024 neg q e l
  | Zneg _ => S754_nan
  end.

(** The exponent part: [e] or [E], an optional sign and at least one
    digit; when it is incomplete the number ends before it. *)
Definition scan_exponent (s : str) : option Z * str :=
  match s with
  | e :: r =>
      if ((e =? 101) || (e =? 69))%N then
        let '(sgn, r1) :=
          match r with
          | c :: r' =>
              if (c =? 45)%N then (true, r')
              else if (c =? 43)%N then (false, r') else (false, r)
          | [] => (false, r)
          end in
        match take_digits r1 with
        | ([], _) => (None, s)
        | (ds, r2) =>
            (Some (if sgn then (- Z_of_digits ds)%Z else Z_of_digits ds), r2)
        end
      else (None, s)
  | [] => (None, s)
  end.

(** The fraction part: a dot and at least one digit. *)
Definition scan_fraction (s : str) : str * str :=
  match s with
  | d :: r =>
      if (d =? 46)%N then
        match take_digits r with
        | ([], _) => ([], s)
        | (fd, r') => (fd, r')
        end
      else ([], s)
  | [] => ([], s)
  end.

(** [NUMBER_RE]: an optional minus sign, then [0] or a digit string that
    does not start with [0], then an optional fraction and an optional
    exponent. No fraction and no exponent gives an [int]. *)
Definition scan_number (s : str) : option (atom * str) :=
  let '(neg, s1) :=
    match s with
    | c :: r => if (c =? 45)%N then (true, r) else (false, s)
    | [] => (false, s)
    end in
  match s1 with
  | [] => None
  | c :: r =>
      if is_digit c then
        let '(ds, r1) := if (c =? 48)%N then ([], r) else take_digits r in
        let '(fd, r2) := scan_fraction r1 in
        let '(ex, r3) := scan_exponent r2 in
        match fd, ex with
        | [], None =>
            let z := Z_of_digits (c :: ds) in
            Some (AInt (if neg then (- z)%Z else z), r3)
        | _, _ =>
            Some (AFloat (float_of_decimal neg (Z_of_digits ((c :: ds) ++ fd))
                            (default 0%Z ex - Z.of_nat (length fd))), r3)
        end
      else None
  end.

Definition hexval (c : N) : option N :=
  if is_digit c then Some (c - 48)%N
  else if ((97 <=? c) && (c <=? 102))%N then Some (c - 87)%N
  else if ((65 <=? c) && (c <=? 70))%N then Some (c - 55)%N
  else None.

Definition hex4 (a b c d : N) : option N :=
  match hexval a, hexval b, hexval c, hexval d with
  | Some x, Some y, Some z, Some w => Some (((x * 16 + y) * 16 + z) * 16 + w)%N
  | _, _, _, _ => None
  end.

(** The one-character escapes of [BACKSLASH]. *)
Definition unescape (c : N) : option N :=
  if (c =? 34)%N then Some 34%N
  else if (c =? 92)%N then Some 92%N
  else if (c =? 47)%N then Some 47%N
  else if (c =? 98)%N then Some 8%N
  else if (c =? 102)%N then Some 12%N
  else if (c =? 110)%N then Some 10%N
  else if (c =? 114)%N then Some 13%N
  else if (c =? 116)%N then Some 9%N
  else None.

Definition push (c : N) (o : option (str * str)) : option (str * str) :=
  match o with Some (t, r) => Some (c :: t, r) | None => None end.

(** [scanstring], entered after the opening quote: the decoded string and
    the text after the closing quote. *)
Fixpoint scanstring (s : str) : option (str * str) :=
  match s with
  | [] => None
  | c :: r =>
      if (c =? 34)%N then Some ([], r)
      else if (c =? 92)%N then
        match r with
        | [] => None
        | e :: r1 =>
            if (e =? 117)%N then
              match r1 with
              | h1 :: h2 :: h3 :: h4 :: r2 =>
                  match hex4 h1 h2 h3 h4 with
                  | None => None
                  | Some uni =>
                      if ((55296 <=? uni) && (uni <=? 56319))%N then
                        (* a high surrogate: is a low one escaped next? *)
                        match r2 with
                        | b :: v :: r2' =>
                            if ((b =? 92) && (v =? 117))%N then
                              match r2' with
                              | l1 :: l2 :: l3 :: l4 :: r3 =>
                                  match hex4 l1 l2 l3 l4 with
                                  | None => None
                                  | Some uni2 =>
                                      if ((56320 <=? uni2) && (uni2 <=? 57343))%N
                                      then push (65536 + (uni - 55296) * 1024
                                                 + (uni2 - 56320))%N
                                             (scanstring r3)
                                      else push uni (scanstring r2)
                                  end
                              | _ => None
                              end
                            else push uni (scanstring r2)
                        | _ => push uni (scanstring r2)
                        end
                      else push uni (scanstring r2)
                  end
              | _ => None
              end
            else
              match unescape e with
              | Some x => push x (scanstring r1)
              | None => None
              end
        end
      else if (c <? 32)%N then None
      else push c (scanstring r)
  end.

(** A key and its colon, entered after the key's opening quote; the text
    returned starts at the value. *)
Definition scan_key (s : str) : option (str * str) :=
  match scanstring s with
  | Some (key, r) =>
      match skip_ws r with
      | c :: r1 => if (c =? 58)%N then Some (key, skip_ws r1) else None
      | [] => None
      end
  | None => None
  end.

(** [dict(pairs)] *)
Definition dict_of_pairs (pairs : list (str * json)) : list (str * json) :=
  dict_update str_eqb [] pairs.

(** Outcome of a scanner: a value and the unread text, a decoding error, or
    recursion budget used up. *)
Inductive pres (A : Type) : Type :=
| POk (a : A) (rest : str)
| PErr
| PFuel.
Arguments POk {A} a rest.
Arguments PErr {A}.
Arguments PFuel {A}.

(** Literals and numbers, in the order [scan_once] tries them. *)
Definition scan_atom (s : str) : pres json :=
  match strip_prefix (u "null") s with
  | Some r => POk JNull r
  | None =>
  match strip_prefix (u "true") s with
  | Some r => POk (JBool true) r
  | None =>
  match strip_prefix (u "false") s with
  | Some r => POk (JBool false) r
  | None =>
  match scan_number s with
  | Some (a, r) => POk (JAtom a) r
  | None =>
  match strip_prefix (u "NaN") s with
  | Some r => POk (JFloat S754_nan) r
  | None =>
  match strip_prefix (u "Infinity") s with
  | Some r => POk (JFloat (S754_infinity false)) r
  | None =>
  match strip_prefix (u "-Infinity") s with
  | Some r => POk (JFloat (S754_infinity true)) r
  | None => PErr
  end end end end end end end.

Definition pbind {A B : Type} (m : pres A) (k : A -> str -> pres B) : pres B :=
  match m with
  | POk a r => k a r
  | PErr => PErr
  | PFuel => PFuel
  end.

(** The body of [scan_once], with [JSONObject] and [JSONArray] up to their
    loops; [scan], [arr] and [obj] are the three scanners one level
    deeper. *)
Definition scan_once_body (scan : str -> pres json)
    (arr : str -> pres (list json)) (obj : str -> pres (list (str * json)))
    (s : str) : pres json :=
  match s with
  | [] => PErr
  | c :: r =>
      if (c =? 34)%N then
        match scanstring r with
        | Some (x, r') => POk (JStr x) r'
        | None => PErr
        end
      else if (c =? 123)%N then
        match skip_ws r with
        | c1 :: r1 =>
            if (c1 =? 125)%N then POk (JDict []) r1
            else if (c1 =? 34)%N then
              pbind (obj r1) (fun pairs r2 => POk (JDict (dict_of_pairs pairs)) r2)
            else PErr
        | [] => PErr
        end
      else if (c =? 91)%N then
        match skip_ws r with
        | c1 :: r1 =>
            if (c1 =? 93)%N then POk (JList []) r1
            else
              pbind (scan (c1 :: r1)) (fun v r2 =>
              pbind (arr r2) (fun vs r3 =>
              POk (JList (v :: vs)) r3))
        | [] => PErr
        end
      else scan_atom s
  end.

(** The loop of [JSONArray], entered after a value: the closing bracket,
    or a comma and one more value. *)
Definition array_rest_body (scan : str -> pres json)
    (arr : str -> pres (list json)) (s : str) : pres (list json) :=
  match skip_ws s with
  | c :: r =>
      if (c =? 93)%N then POk [] r
      else if (c =? 44)%N then
        pbind (scan (skip_ws r)) (fun v r1 =>
        pbind (arr r1) (fun vs r2 =>
        POk (v :: vs) r2))
      else PErr
  | [] => PErr
  end.

(** The loop of [JSONObject], entered after the opening quote of a key: the
    key, its value, then the closing brace, or a comma and one more
    pair. *)
Definition object_items_body (scan : str -> pres json)
    (obj : str -> pres (list (str * json))) (s : str)
  : pres (list (str * json)) :=
  match scan_key s with
  | Some (key, r) =>
      pbind (scan r) (fun v r1 =>
      match skip_ws r1 with
      | c :: r2 =>
          if (c =? 125)%N then POk [(key, v)] r2
          else if (c =? 44)%N then
            match skip_ws r2 with
            | q :: r3 =>
                if (q =? 34)%N then
                  pbind (obj r3) (fun ps r4 => POk ((key, v) :: ps) r4)
                else PErr
            | [] => PErr
            end
          else PErr
      | [] => PErr
      end)
  | None => PErr
  end.

(** The three scanners, by recursion on the nesting budget. *)
Fixpoint scan_once (fuel : nat) (s : str) : pres json :=
  match fuel with
  | O => PFuel
  | S n =>
      scan_once_body (fun s' => scan_once n s') (fun s' => array_rest n s')
        (fun s' => object_items n s') s
  end
with array_rest (fuel : nat) (s : str) : pres (list json) :=
  match fuel with
  | O => PFuel
  | S n => array_rest_body (fun s' => scan_once n s') (fun s' => array_rest n s') s
  end
with object_items (fuel : nat) (s : str) : pres (list (str * json)) :=
  match fuel with
  | O => PFuel
  | S n =>
      object_items_body (fun s' => scan_once n s') (fun s' => object_items n s') s
  end.

(** [json.loads(s)]: one value between optional whitespace. The budget
    [S (length s)] loses nothing: what any budget decodes, this one decodes
    (see [scan_once_adequate]). *)
Definition json_loads (s : str) : result json :=
  let s0 := skip_ws s in
  match scan_once (S (length s0)) s0 with
  | POk v r =>
      match skip_ws r with
      | [] => Ok v
      | _ :: _ => Raise JSONDecodeError
      end
  | _ => Raise JSONDecodeError
  end.

(** ** [PIF.pif2json] *)

(** The characters the pattern class \s matches in a [str] pattern. *)
Definition is_space (c : N) : bool :=
  (((9 <=? c) && (c <=? 13)) || ((28 <=? c) && (c <=? 32))
   || (c =? 133) || (c =? 160) || (c =? 5760)
   || ((8192 <=? c) && (c <=? 8202)) || (c =? 8232) || (c =? 8233)
   || (c =? 8239) || (c =? 8287) || (c =? 12288))%N.

(** The longest run of such characters at the head of [s], and the rest. *)
Fixpoint take_space (s : str) : str * str :=
  match s with
  | c :: r =>
      if is_space c then let '(w, r') := take_space r in (c :: w, r')
      else ([], s)
  | [] => ([], [])
  end.

(** The end of the pattern: three stars and one or more spaces (greedy).
    Returns the spaces taken and the text after the match. *)
Definition match_tail (s : str) : option (str * str) :=
  match strip_prefix (u "***") s with
  | Some r =>
      match take_space r with
      | ([], _) => None
      | (w, r') => Some (w, r')
      end
  | None => None
  end.

(** The greedy [.*] followed by the end of the pattern: take one more
    character that is not a line feed if the rest still matches, else stop
    here. *)
Fixpoint match_dotstar (s : str) : option (str * str) :=
  match s with
  | [] => match_tail s
  | c :: r =>
      if (c =? 10)%N then match_tail s
      else
        match match_dotstar r with
        | Some m => Some m
        | None => match_tail s
        end
  end.

(** The pattern after its anchor: three stars, anything, three stars,
    spaces. *)
Definition match_marker (s : str) : option (str * str) :=
  match strip_prefix (u "***") s with
  | Some r => match_dotstar r
  | None => None
  end.

Definition ends_with_newline (w : str) : bool :=
  match last w with Some c => (c =? 10)%N | None => false end.

(** [re.sub] of the multi-line pattern by the empty string: scan from the
    left; where the position starts a line ([bol]) and the pattern matches,
    drop the match and go on after it, else keep one character. A match is
    never empty, so [length s] steps are enough. *)
Fixpoint re_sub_markers (fuel : nat) (bol : bool) (s : str) : str :=
  match fuel with
  | O => s
  | S n =>
      match s with
      | [] => []
      | c :: r =>
          match (if bol then match_marker s else None) with
          | Some (w, rest) => re_sub_markers n (ends_with_newline w) rest
          | None => c :: re_sub_markers n (c =? 10)%N r
          end
      end
  end.

(** [s.split(sep)] for a one-character separator. *)
Fixpoint split_on (sep : N) (s : str) : list str :=
  match s with
  | [] => [[]]
  | c :: r =>
      if (c =? sep)%N then [] :: split_on sep r
      else
        match split_on sep r with
        | l :: ls => (c :: l) :: ls
        | [] => [[c]]
        end
  end.

(** [sep.join(parts)] *)
Fixpoint join (sep : str) (parts : list str) : str :=
  match parts with
  | [] => []
  | [x] => x
  | x :: rest => x ++ sep ++ join sep rest
  end.

(** [s.rstrip(c)] for a one-character argument. *)
Fixpoint rstrip (c : N) (s : str) : str :=
  match s with
  | [] => []
  | x :: r =>
      match rstrip c r with
      | [] => if (x =? c)%N then [] else [x]
      | r' => x :: r'
      end
  end.

(** The body of [pif2json] after [file.read()]. *)
Definition pif2json_text (data : str) : result json :=
  let cleaned := re_sub_markers (length data) true data in
  let cleaned := split_on 10 cleaned in
  let cleaned := rstrip 44 (join [44%N] cleaned) in
  let cleaned := [91%N] ++ cleaned ++ [93%N] in
  json_loads cleaned.

(** A text-mode file handle: the decoded content ([None] when the bytes are
    not valid in the declared encoding) and the read position. *)
Record handle : Type := Handle { f_text : option str; f_pos : nat }.

(** [file.read()]: everything from the position to the end. *)
Definition file_read (f : handle) : result str * handle :=
  match f_text f with
  | Some t => (Ok (drop (f_pos f) t), Handle (Some t) (length t))
  | None => (Raise UnicodeDecodeError, f)
  end.

(** [file.seek(0)] *)
Definition rewind (f : handle) : handle := Handle (f_text f) 0.

Definition pif2json (f : handle) : result json * handle :=
  let '(r, f') := file_read f in
  (data ← r; pif2json_text data, f').

(** ** Class [PIF]: configuration *)

(** [PIF.ignore] *)
Definition ignore : gset str :=
  list_to_set
    [u "keyID"; u "uuid"; u "updatedAt"; u "locationKey"; u "securityLevel";
     u "openContents"; u "faveIndex"; u "contentsHash"; u "trashed"; u "URLs";
     u "passwordHistory"; u "htmlName"; u "htmlMethod"; u "htmlAction";
     u "sections"; u "createdAt"; u "typeName"].

(** The initial value of the class attribute [PIF.domain_prefixes]. The
    attribute is one set object owned by the class; instances never rebind
    it, so every [self.domain_prefixes] denotes that object. Its current
    content is threaded through the model as the class state. *)
Definition default_domain_prefixes : gset str :=
  list_to_set
    [u "www"; u "www2"; u "web"; u "home"; u "ssl"; u "app"; u "m";
     u "account"; u "accounts"; u "auth"; u "id"; u "login"].

(** The entries of [settings['1password']] the constructor reads; an absent
    key is [None]. *)
Record options : Type := Options {
  opt_browserpass : option bool;
  opt_strip_domain_prefixes : option bool;
  opt_domain_prefixes : option (list str)
}.

(** [settings]: [None] when there is no ['1password'] section. *)
Record settings : Type := Settings { onepassword : option options }.

(** The instance attributes the methods of this file use. *)
Record PIF : Type := MkPIF {
  browserpass : bool;
  strip_domain_prefixes : bool;
  file : handle;
  jsons : json;
  data : list (list (atom * json))
}.

(** [PIF._load_domain_prefixes], on the class state [cls]. The state
    reached is returned also when an exception is raised. *)
Fixpoint load_domain_prefixes (cls : gset str) (prefixes : list str)
  : result unit * gset str :=
  match prefixes with
  | [] => (Ok (), cls)
  | prefix :: rest =>
      match prefix with
      | [] => (Raise IndexError, cls)                    (* prefix[0] *)
      | c :: tail =>
          if (c =? 33)%N then
            (* remove a default prefix *)
            load_domain_prefixes (cls ∖ {[ tail ]}) rest
          else load_domain_prefixes ({[ prefix ]} ∪ cls) rest
      end
  end.

(** [PIF.__init__]. The base-class constructor is outside this file; the
    instance it completes starts with the handle [f] that [open] attaches,
    no decoded document and no entries. *)
Definition PIF_init (cls : gset str) (f : handle) (s : option settings)
  : result PIF * gset str :=
  let settings := default (Settings None) s in
  let options := default (Options None None None) (onepassword settings) in
  let bp := default false (opt_browserpass options) in
  let strip := default true (opt_strip_domain_prefixes options) in
  let '(r, cls') :=
    if strip
    then load_domain_prefixes cls (default [] (opt_domain_prefixes options))
    else (Ok (), cls) in
  (_ ← r; Ok (MkPIF bp strip f JNull []), cls').

(** ** Class [PIF]: import *)

(** An output entry: a dict from hashable keys to values. *)
Definition entry : Type := list (atom * json).

(** One value of the [folders] dict built by [parse]. *)
Record folder : Type := Folder { group : json; parent : json }.

(** What [parse] uses from the rest of the package. *)
Class Collaborators : Type := {
  (** the dict returned by [self.invkeys()] *)
  invkeys : list (str * str);
  (** the effect of [self._sortgroup(folders)] on [self.data] *)
  sortgroup : list (atom * folder) -> list entry -> result (list entry);
  (** [clean.protocol] *)
  clean_protocol : json -> result str;
  (** [clean.domain] *)
  clean_domain : str -> result str
}.

(** [x.pop(k, default)]: the value and the dict left. A list has a [pop]
    of one argument, other values have none. *)
Definition py_pop (x : json) (k : str) (dflt : json)
  : result (json * list (str * json)) :=
  match x with
  | JDict kvs =>
      Ok (default dflt (dict_get str_eqb kvs k), dict_del str_eqb kvs k)
  | JList _ => Raise TypeError
  | JAtom _ => Raise AttributeError
  end.

(** The items a [for] loop draws from a value. *)
Definition py_iter (v : json) : result (list json) :=
  match v with
  | JList l => Ok l
  | JDict d => Ok (map (fun kv => JStr kv.1) d)
  | JAtom (AStr s) => Ok (map (fun c => JStr [c]) s)
  | JAtom _ => Raise TypeError
  end.

(** [v == s] for a [str] literal [s]. *)
Definition eq_str (v : json) (s : str) : bool :=
  match v with JAtom a => atom_eq a (AStr s) | _ => false end.

Fixpoint startswith (s p : str) : bool :=
  match p, s with
  | [], _ => true
  | a :: p', b :: s' => (a =? b)%N && startswith s' p'
  | _ :: _, [] => false
  end.

Fixpoint foldM {A B : Type} (f : A -> B -> result A) (a : A) (l : list B)
  : result A :=
  match l with
  | [] => Ok a
  | x :: rest =>
      match f a x with
      | Ok a' => foldM f a' rest
      | Raise e => Raise e
      end
  end.

(** The inner loop of [_find_otpauth] over the fields of one section. *)
Fixpoint find_otpauth_fields (fs : list json) : result (option str) :=
  match fs with
  | [] => Ok None
  | f :: rest =>
      match py_get f (u "v") JNull with
      | Ok v =>
          if truthy v then
            match v with
            | JAtom (AStr t) =>
                if startswith t (u "otpauth:") then Ok (Some t)
                else find_otpauth_fields rest
            | _ => Raise AttributeError                   (* v.startswith *)
            end
          else find_otpauth_fields rest
      | Raise e => Raise e
      end
  end.

Fixpoint find_otpauth_sections (ss : list json) : result (option str) :=
  match ss with
  | [] => Ok None
  | s :: rest =>
      match (fl ← py_get s (u "fields") (JList []); fs ← py_iter fl;
             find_otpauth_fields fs) with
      | Ok (Some v) => Ok (Some v)
      | Ok None => find_otpauth_sections rest
      | Raise e => Raise e
      end
  end.

(** [PIF._find_otpauth] *)
Definition find_otpauth (sections : json) : result (option str) :=
  ss ← py_iter sections; find_otpauth_sections ss.

(** The loop of [_get_domain]: drop leading labels that are prefixes while
    more than two labels remain. *)
Fixpoint strip_labels (prefixes : gset str) (parts : list str) : list str :=
  match parts with
  | p :: rest =>
      if bool_decide (2 < length parts) && bool_decide (p ∈ prefixes)
      then strip_labels prefixes rest
      else parts
  | [] => []
  end.

Section Importer.
Context {C : Collaborators}.

(** [PIF._get_domain], reading the class attribute [cls]. *)
Definition get_domain (self : PIF) (cls : gset str) (url : json)
  : result str :=
  p ← clean_protocol url;
  domain ← clean_domain p;
  if strip_domain_prefixes self
  then Ok (join [46%N] (strip_labels cls (split_on 46 domain)))
  else Ok domain.

(** [keys.get(k, k)]: the key has to be hashable; the key map has
    [str] keys only. *)
Definition keys_get (k : json) : result atom :=
  match k with
  | JAtom (AStr s) => Ok (AStr (default s (dict_get str_eqb invkeys s)))
  | JAtom a => Ok a
  | _ => Raise TypeError
  end.

(** One round of the loop over [secureContents.fields]. *)
Definition collect_field (e : entry) (field : json) : result entry :=
  name ← py_get field (u "name") (JStr []);
  designation ← py_get field (u "designation") (JStr []);
  let jsonkey := if truthy designation then designation else name in
  key ← keys_get jsonkey;
  value ← py_get field (u "value") (JStr []);
  Ok (dict_set key_eq e key value).

(** The title rewrite done when [self.browserpass] is set. *)
Definition rewrite_title (self : PIF) (cls : gset str)
    (item : list (str * json)) : result (list (str * json)) :=
  if browserpass self then
    let url := default JNull (dict_get str_eqb item (u "location")) in
    title ← (if truthy url then get_domain self cls url else Ok []);
    if negb (str_eqb title [])
    then Ok (dict_set str_eqb item (u "title") (JStr title))
    else Ok item
  else Ok item.

(** The OTP step: [entry['otpauth']] is set when [sections] is true and
    [_find_otpauth] finds a value. *)
Definition add_otpauth (e : entry) (sections : json) : result entry :=
  if truthy sections then
    otpauth ← find_otpauth sections;
    match otpauth with
    | Some v => Ok (dict_set key_eq e (AStr (u "otpauth")) (JStr v))
    | None => Ok e
    end
  else Ok e.

(** The last loop: the remaining keys of the record, without the ignored
    ones, renamed through the key map. *)
Definition merge_item (e : entry) (item : list (str * json)) : entry :=
  fold_left
    (fun e kv =>
       if bool_decide (kv.1 ∈ ignore) then e
       else dict_set key_eq e
              (AStr (default kv.1 (dict_get str_eqb invkeys kv.1))) kv.2)
    item e.

(** The branch of [parse] for a ['webforms.WebForm'] record. *)
Definition parse_webform (self : PIF) (cls : gset str)
    (item : list (str * json)) : result entry :=
  item ← rewrite_title self cls item;
  let scontent := default (JDict []) (dict_get str_eqb item (u "secureContents")) in
  let item := dict_del str_eqb item (u "secureContents") in
  '(fields, scontent) ← py_pop scontent (u "fields") (JList []);
  fl ← py_iter fields;
  e ← foldM collect_field [] fl;
  let sections := default (JList []) (dict_get str_eqb scontent (u "sections")) in
  let scontent := dict_del str_eqb scontent (u "sections") in
  e ← add_otpauth e sections;
  let item := dict_update str_eqb item scontent in
  Ok (merge_item e item).

(** One round of the loop of [parse] on the pair of [self.data] and
    [folders]. *)
Definition parse_item (self : PIF) (cls : gset str)
    (st : list entry * list (atom * folder)) (item : json)
  : result (list entry * list (atom * folder)) :=
  match item with
  | JDict kvs =>
      (* Don't include trashed/archived items. *)
      if truthy (default (JBool false) (dict_get str_eqb kvs (u "trashed")))
      then Ok st
      else if eq_str (default (JStr []) (dict_get str_eqb kvs (u "typeName")))
                (u "system.folder.Regular")
      then
        match default (JStr []) (dict_get str_eqb kvs (u "uuid")) with
        | JAtom key =>
            Ok (st.1,
                dict_set key_eq st.2 key
                  (Folder (default (JStr []) (dict_get str_eqb kvs (u "title")))
                     (default (JStr []) (dict_get str_eqb kvs (u "folderUuid")))))
        | _ => Raise TypeError                          (* unhashable key *)
        end
      else if eq_str (default (JStr []) (dict_get str_eqb kvs (u "typeName")))
                (u "webforms.WebForm")
      then
        e ← parse_webform self cls kvs;
        Ok (st.1 ++ [e], st.2)
      else Ok st
  | _ => Raise AttributeError                           (* item.get *)
  end.

(** [PIF.parse]: an exception ends the call and is handed to the
    caller. *)
Definition parse (self : PIF) (cls : gset str) : result PIF :=
  let '(r, f') := pif2json (file self) in
  items ← (jsons ← r; py_iter jsons);
  st ← foldM (parse_item self cls) (data self, []) items;
  data' ← sortgroup st.2 st.1;
  Ok (MkPIF (browserpass self) (strip_domain_prefixes self) f'
        (jsons self) data').
End Importer.

(** [PIF.is_format]: the two decoding exceptions become [False], the
    decoded list is kept in [self.jsons]. *)
Definition is_format (self : PIF) : result bool * PIF :=
  let '(r, f') := pif2json (file self) in
  match r with
  | Ok j =>
      (Ok true, MkPIF (browserpass self) (strip_domain_prefixes self) f' j
                  (data self))
  | Raise e =>
      (match e with
       | JSONDecodeError | UnicodeDecodeError => Ok false
       | _ => Raise e
       end,
       MkPIF (browserpass self) (strip_domain_prefixes self) f' (jsons self)
         (data self))
  end.

(** [JSON.checkheader] and its override [PIF.checkheader]. *)
Definition JSON_checkheader (self : PIF) (hdr : header) : result bool :=
  ensureheader (jsons self) hdr.

Definition PIF_checkheader (self : PIF) (hdr : header) : result bool :=
  Ok true.

(** [JSON.is_format] of the base class. *)
Definition JSON_is_format (self : PIF) : result bool * PIF :=
  let '(r, f') := file_read (file self) in
  match (text ← r; json_loads text) with
  | Ok j =>
      (Ok true, MkPIF (browserpass self) (strip_domain_prefixes self) f' j
                  (data self))
  | Raise e =>
      (match e with
       | JSONDecodeError | UnicodeDecodeError => Ok false
       | _ => Raise e
       end,
       MkPIF (browserpass self) (strip_domain_prefixes self) f' (jsons self)
         (data self))
  end.

(** ** An environment to run the importer in

    A key map in the style of the 1Password importers, a [_sortgroup] that
    leaves the entries as they are, and cleaners that return a [str]
    unchanged. The general results below hold for every environment; this
    one serves to evaluate [parse] on concrete records. *)
Definition example_collaborators : Collaborators := {|
  invkeys :=
    [(u "title", u "title"); (u "password", u "password");
     (u "username", u "login"); (u "location", u "url");
     (u "notesPlain", u "comments"); (u "folderUuid", u "group")];
  sortgroup := fun _ entries => Ok entries;
  clean_protocol :=
    fun url => match url with JAtom (AStr t) => Ok t | _ => Raise TypeError end;
  clean_domain := fun t => Ok t
|}.

(** A newly opened handle on [text]. *)
Definition open_text (text : str) : handle := Handle (Some text) 0.

(** The entries held by the instance a call returned. *)
Definition entries_of (r : result PIF) : result (list entry) :=
  match r with Ok self => Ok (data self) | Raise e => Raise e end.

(** [self] with another file handle. *)
Definition with_file (self : PIF) (f : handle) : PIF :=
  MkPIF (browserpass self) (strip_domain_prefixes self) f (jsons self)
    (data self).

(** *** Reading a record's sections, used to state the OTP step *)

(** The raw value of a section field: [f.get('v')]. *)
Definition field_value (f : list (str * json)) : json :=
  default JNull (dict_get str_eqb f (u "v")).

(** [s] is a section object whose [fields] are the objects [fs]. *)
Definition section_fields (s : json) (fs : list (list (str * json))) : Prop :=
  exists kvs,
    s = JDict kvs
    /\ default (JList []) (dict_get str_eqb kvs (u "fields")) = JList (map JDict fs).

(** A value the search passes over without effect: a false value, or a
    string that does not begin with the scheme prefix. *)
Definition passed_over (v : json) : Prop :=
  truthy v = false \/ exists t, v = JStr t /\ startswith t (u "otpauth:") = false.

(** A credential record with three section fields, two of which hold
    one-time-password URIs. *)
Definition example_sections : list json :=
  [JDict [(u "fields", JList [JDict [(u "v", JStr (u "plain"))]])];
   JDict [(u "fields",
            JList [JDict [(u "v", JStr (u "otpauth://a"))];
                   JDict [(u "v", JStr (u "otpauth://b"))]])]].

Definition example_secure_contents : list (str * json) :=
  [(u "sections", JList example_sections)].

Definition example_record : list (str * json) :=
  [(u "typeName", JStr (u "webforms.WebForm"));
   (u "secureContents", JDict example_secure_contents)].

(** *** The shape of 1PIF text, used to state what [pif2json] returns *)

Definition stars : str := u "***".

(** A marker: three stars, text without a line feed, three stars. *)
Definition marker (m : str) : Prop :=
  exists t, m = stars ++ t ++ stars /\ 10%N ∉ t.

(** One or more characters of the class \s. *)
Definition spaces (w : str) : Prop :=
  w ≠ [] /\ Forall (fun c => is_space c = true) w.

(** Text made of marker lines only: each marker starts a line and is
    followed by spaces, which end the line unless the text ends with
    them. *)
Inductive only_markers : str -> Prop :=
| only_markers_nil : only_markers []
| only_markers_cons (m w rest : str) :
    marker m -> spaces w ->
    ends_with_newline w = true \/ rest = [] ->
    only_markers rest ->
    only_markers (m ++ w ++ rest).

(** A record line: text without a line feed that [json.loads] decodes, on
    its own, to the object [v]. *)
Definition record_line (l : str) (v : json) : Prop :=
  (10%N ∉ l) /\ (exists kvs, v = JDict kvs) /\ json_loads l = Ok v.

(** 1PIF text and the records on its lines, in order: every line is a
    marker line or a record line; the last line may lack its line feed when
    it is a record line, and when it is a marker line followed by
    spaces. *)
Inductive legacy : str -> list json -> Prop :=
| legacy_nil : legacy [] []
| legacy_marker (m w rest : str) (vs : list json) :
    marker m -> spaces w ->
    ends_with_newline w = true \/ rest = [] ->
    legacy rest vs ->
    legacy (m ++ w ++ rest) vs
| legacy_record (l rest : str) (v : json) (vs : list json) :
    record_line l v ->
    legacy rest vs ->
    legacy (l ++ 10%N :: rest) (v :: vs)
| legacy_last (l : str) (v : json) :
    record_line l v ->
    legacy l [v].

(** The same without marker lines: what the substitution leaves. *)
Inductive cleaned : str -> list json -> Prop :=
| cleaned_nil : cleaned [] []
| cleaned_record (l rest : str) (v : json) (vs : list json) :
    record_line l v ->
    cleaned rest vs ->
    cleaned (l ++ 10%N :: rest) (v :: vs)
| cleaned_last (l : str) (v : json) :
    record_line l v ->
    cleaned l [v].

(** *** Notions used to reason about the decoder *)

(** [r] is what is left of [s] after at least one character. *)
Definition leaves (s r : str) : Prop := exists pre, pre ≠ [] /\ s = pre ++ r.

(** Characters a number can continue with. *)
Definition numchar (c : N) : bool :=
  is_digit c || (c =? 46)%N || (c =? 101)%N || (c =? 69)%N || (c =? 43)%N
  || (c =? 45)%N.

(** The unread text starts with a character that no number continues
    with. *)
Definition stop (r : str) : bool :=
  match r with c :: _ => negb (numchar c) | [] => false end.

(** A value that ends with its own closing character. *)
Definition is_container (v : json) : bool :=
  match v with JAtom (AStr _) | JList _ | JDict _ => true | JAtom _ => false end.

(** The text after the first record line, inside the brackets. *)
Definition more_lines (ls : list str) : str :=
  concat (map (fun l => 44%N :: l) ls) ++ [93%N].

(** *** Notions used to state further properties *)

(** [JSON.json_header], the value [JSON.header()] returns for a class that
    does not override it: an empty dict. *)
Definition json_header : header := HDict [].

(** No line of the text begins with a star; [bol] tells whether the text
    starts at the beginning of a line. *)
Fixpoint no_star_line (bol : bool) (s : str) : bool :=
  match s with
  | [] => true
  | c :: r => negb (bol && (c =? 42)%N) && no_star_line (c =? 10)%N r
  end.

(** The text [s] with every [a] replaced by [b]. *)
Definition replace_char (a b : N) (s : str) : str :=
  map (fun c => if (c =? a)%N then b else c) s.

(** The settings that carry a [domain_prefixes] list and nothing else. *)
Definition prefix_settings (ps : list str) : option settings :=
  Some (Settings (Some (Options None None (Some ps)))).

(** The records [parse] turns into entries: objects that are not trashed
    and whose [typeName] is ['webforms.WebForm']. *)
Definition emits_entry (item : json) : bool :=
  match item with
  | JDict kvs =>
      negb (truthy (default (JBool false) (dict_get str_eqb kvs (u "trashed"))))
      && eq_str (default (JStr []) (dict_get str_eqb kvs (u "typeName")))
           (u "webforms.WebForm")
  | _ => false
  end.

(** A record list with a folder, a credential record, a trashed record and
    a record of another type. *)
Definition example_items : list json :=
  [JDict [(u "typeName", JStr (u "system.folder.Regular"));
          (u "uuid", JStr (u "F1")); (u "title", JStr (u "Work"))];
   JDict example_record;
   JDict [(u "typeName", JStr (u "webforms.WebForm"));
          (u "trashed", JBool true)];
   JDict [(u "typeName", JStr (u "securenotes.SecureNote"));
          (u "title", JStr (u "note"))]].

(** * Properties *)

(** ** Induction over documents and headers *)

Lemma json_ind (P : json -> Prop) :
  (forall a, P (JAtom a)) ->
  (forall l, Forall P l -> P (JList l)) ->
  (forall kvs, Forall (fun kv => P kv.2) kvs -> P (JDict kvs)) ->
  forall d, P d.
Proof.
  intros Ha Hl Hd. fix IH 1. intros [a|l|kvs].
  - apply Ha.
  - apply Hl. induction l as [|x l IHl]; constructor; [apply IH | apply IHl].
  - apply Hd. induction kvs as [|[k x] kvs IHl]; constructor;
      [apply IH | apply IHl].
Qed.

Lemma header_ind (P : header -> Prop) :
  (forall t, P (HType t)) ->
  (forall a, P (HAtom a)) ->
  (forall hs, Forall P hs -> P (HList hs)) ->
  (forall hs, Forall (fun kv => P kv.2) hs -> P (HDict hs)) ->
  forall h, P h.
Proof.
  intros Ht Ha Hl Hd. fix IH 1. intros [t|a|hs|hs].
  - apply Ht.
  - apply Ha.
  - apply Hl. induction hs as [|x l IHl]; constructor; [apply IH | apply IHl].
  - apply Hd. induction hs as [|[k x] hs IHl]; constructor;
      [apply IH | apply IHl].
Qed.

(** ** Dicts *)

Lemma str_eqb_eq (a b : str) : str_eqb a b = true <-> a = b.
Proof. unfold str_eqb. apply bool_decide_eq_true. Qed.

Lemma str_eqb_refl (a : str) : str_eqb a a = true.
Proof. by apply str_eqb_eq. Qed.

Lemma str_eqb_ne (a b : str) : a ≠ b -> str_eqb a b = false.
Proof. unfold str_eqb. apply bool_decide_eq_false_2. Qed.

Section DictFacts.
Context {V : Type}.
Implicit Types (d : list (str * V)) (k : str) (v : V).

Lemma dict_get_set_eq d k v : dict_get str_eqb (dict_set str_eqb d k v) k = Some v.
Proof.
  induction d as [|[k' v'] d IH]; simpl.
  - by rewrite str_eqb_refl.
  - destruct (str_eqb k' k) eqn:E; simpl; by rewrite E.
Qed.

Lemma dict_get_set_ne d k k' v :
  k ≠ k' -> dict_get str_eqb (dict_set str_eqb d k v) k' = dict_get str_eqb d k'.
Proof.
  intros Hne. induction d as [|[k0 v0] d IH]; simpl.
  - by rewrite str_eqb_ne.
  - destruct (str_eqb k0 k) eqn:E; simpl.
    + apply str_eqb_eq in E as ->. by rewrite !str_eqb_ne.
    + by rewrite IH.
Qed.

Lemma dict_get_del_eq d k : dict_get str_eqb (dict_del str_eqb d k) k = None.
Proof.
  induction d as [|[k' v'] d IH]; simpl; [done|].
  destruct (str_eqb k' k) eqn:E; simpl; [done|]. by rewrite E.
Qed.

Lemma dict_get_del_ne d k k' :
  k ≠ k' -> dict_get str_eqb (dict_del str_eqb d k) k' = dict_get str_eqb d k'.
Proof.
  intros Hne. induction d as [|[k0 v0] d IH]; simpl; [done|].
  destruct (str_eqb k0 k) eqn:E; simpl.
  - apply str_eqb_eq in E as ->. by rewrite str_eqb_ne.
  - by rewrite IH.
Qed.
End DictFacts.

(** ** The structural matcher *)

Lemma all_ok_true {A : Type} (test : A -> result bool) (l : list A) :
  all_ok test l = Ok true <-> Forall (fun x => test x = Ok true) l.
Proof.
  induction l as [|x l IH]; simpl.
  - split; [constructor | done].
  - rewrite Forall_cons. destruct (test x) as [[]|e]; rewrite <- ?IH;
      split; try done; intros [? ?]; done.
Qed.

Lemma all_ok_ext {A : Type} (f g : A -> result bool) (l : list A) :
  Forall (fun x => f x = g x) l -> all_ok f l = all_ok g l.
Proof.
  induction 1 as [|x l Hx _ IH]; simpl; [done|]. by rewrite Hx, IH.
Qed.

(** On a header whose list templates all have their element header, the
    matcher returns a boolean for every document. *)
Lemma ensureheader_total (hdr : header) :
  templates_nonempty hdr = true ->
  forall data, exists b, ensureheader data hdr = Ok b.
Proof.
  induction hdr as [t|a|hs IH|hs IH] using header_ind; intros Hwf data.
  - simpl. destruct (_ && _); eauto.
  - destruct data; simpl; eauto.
  - destruct data as [a|items|kvs]; simpl; eauto.
    simpl in Hwf. apply andb_true_iff in Hwf as [Hne Hall].
    destruct hs as [|h0 hs]; [done|]. simpl in Hall.
    apply andb_true_iff in Hall as [Hh0 _].
    apply Forall_cons in IH as [IH0 _].
    induction items as [|x items IHi]; simpl; [eauto|].
    destruct (IH0 Hh0 x) as [[] ->]; eauto.
  - destruct data as [a|items|kvs]; simpl; eauto.
    simpl in Hwf.
    induction hs as [|[k h] hs IHh]; simpl; [eauto|].
    simpl in Hwf. apply andb_true_iff in Hwf as [Hh Hrest].
    apply Forall_cons in IH as [IHh0 IHrest]. simpl in IHh0.
    destruct (dict_get str_eqb kvs k) as [d|]; [|eauto].
    destruct (IHh0 Hh d) as [[] ->]; eauto.
Qed.

(** C1. The matcher is not total: a header holding an empty list, against
    a document holding a non-empty list at that place, ends in the
    [IndexError] of [header[0]], also through [checkheader]. *)
Theorem ensureheader_empty_template_raises :
  ensureheader (JList [JInt 1]) (HList []) = Raise IndexError
  /\ JSON_checkheader
       (MkPIF false true (Handle (Some []) 0) (JList [JInt 1]) [])
       (HList []) = Raise IndexError.
Proof. split; reflexivity. Qed.

Lemma ensureheader_add_key (path : list step) :
  forall (d d' : json) (s : header) (k : str) (v : json),
    ensureheader d s = Ok true ->
    k ∉ header_keys s ->
    add_key_at path k v d = Some d' ->
    ensureheader d' s = Ok true.
Proof.
  induction path as [|st path IH]; intros d d' s k v Hm Hk Ha.
  - destruct d as [a|l|kvs]; try done. simpl in Ha. injection Ha as <-.
    destruct s as [t|a|hs|hs]; try done.
    simpl in *. rewrite <- Hm. apply all_ok_ext, Forall_forall.
    intros [key value] Hin. simpl.
    rewrite dict_get_set_ne; [done|]. intros ->. apply Hk.
    apply list_elem_of_In, in_concat. exists (key :: header_keys value).
    split; [|by left]. apply in_map_iff. exists (key, value).
    split; [done|]. by apply list_elem_of_In.
  - destruct st as [k'|i], d as [a|l|kvs]; try done; simpl in Ha.
    + destruct (dict_get str_eqb kvs k') as [d1|] eqn:Hget; [|done].
      destruct (add_key_at path k v d1) as [d1'|] eqn:Hadd; [|done].
      injection Ha as <-.
      destruct s as [t|a|hs|hs]; try done.
      simpl in *. apply all_ok_true in Hm. apply all_ok_true.
      rewrite Forall_forall in Hm |- *. intros [key value] Hin.
      specialize (Hm _ Hin). simpl in *.
      assert (k ∉ header_keys value) as Hkv.
      { intros Hkin. apply Hk. apply list_elem_of_In, in_concat.
        exists (key :: header_keys value). split.
        - apply in_map_iff. exists (key, value). split; [done|].
          by apply list_elem_of_In.
        - right. by apply list_elem_of_In. }
      destruct (decide (k' = key)) as [->|Hne].
      * rewrite dict_get_set_eq. rewrite Hget in Hm. eauto.
      * by rewrite dict_get_set_ne.
    + destruct (l !! i) as [d1|] eqn:Hget; [|done].
      destruct (add_key_at path k v d1) as [d1'|] eqn:Hadd; [|done].
      injection Ha as <-.
      destruct s as [t|a|hs|hs]; try done.
      simpl in *. apply all_ok_true in Hm. apply all_ok_true.
      destruct hs as [|h0 hs].
      { apply (Forall_lookup_1 _ _ _ _ Hm) in Hget. done. }
      apply Forall_insert; [done|].
      apply (Forall_lookup_1 _ _ _ _ Hm) in Hget.
      apply (IH d1 d1' h0 k v Hget); [|done].
      intros Hkin. apply Hk. simpl. apply elem_of_app. by left.
Qed.

Lemma ensureheader_del_key (kvs : list (str * json)) (k : str) :
  forall (hs : list (str * header)) (b : bool),
    k ∈ hs.*1 ->
    ensureheader (JDict kvs) (HDict hs) = Ok b ->
    ensureheader (JDict (dict_del str_eqb kvs k)) (HDict hs) = Ok false.
Proof.
  simpl. induction hs as [|[key value] hs IH]; intros b Hin Hm.
  - by apply elem_of_nil in Hin.
  - simpl in *. destruct (decide (key = k)) as [->|Hne].
    + by rewrite dict_get_del_eq.
    + rewrite dict_get_del_ne by done.
      apply elem_of_cons in Hin as [->|Hin]; [done|].
      destruct (dict_get str_eqb kvs key) as [d|]; [|done].
      destruct (ensureheader d value) as [[]|e]; [|done|done].
      by apply (IH b).
Qed.

(** C8. An object header is a minimum shape. Where the matcher returns
    [True], it still does after a key that the header does not mention is
    set in any object of the document; where it returns a boolean for an
    object against an object header, it returns [False] once a key of the
    header is deleted from the object. The header [{"name": str}] matches
    [{"name": "x", "extra": 1}] and does not match [{"extra": 1}]. *)
Theorem ensureheader_minimum_shape :
  (forall (d d' : json) (s : header) (path : list step) (k : str) (v : json),
      ensureheader d s = Ok true ->
      k ∉ header_keys s ->
      add_key_at path k v d = Some d' ->
      ensureheader d' s = Ok true)
  /\ (forall (kvs : list (str * json)) (hs : list (str * header)) (k : str)
        (b : bool),
        k ∈ hs.*1 ->
        ensureheader (JDict kvs) (HDict hs) = Ok b ->
        ensureheader (JDict (dict_del str_eqb kvs k)) (HDict hs) = Ok false)
  /\ ensureheader
       (JDict [(u "name", JStr (u "x")); (u "extra", JInt 1)])
       (HDict [(u "name", HType TStr)]) = Ok true
  /\ ensureheader
       (JDict [(u "extra", JInt 1)])
       (HDict [(u "name", HType TStr)]) = Ok false.
Proof.
  split; [|split; [|split; reflexivity]].
  - intros d d' s path k v. apply ensureheader_add_key.
  - intros kvs hs k b. apply ensureheader_del_key.
Qed.

Lemma ensureheader_minimum_shape_witness :
  ensureheader
    (JDict [(u "name", JStr (u "x"));
            (u "more", JDict [(u "a", JInt 1); (u "extra", JNull)])])
    (HDict [(u "name", HType TStr)]) = Ok true
  /\ ensureheader
       (JDict (dict_del str_eqb
                 [(u "name", JStr (u "x")); (u "more", JDict [(u "a", JInt 1)])]
                 (u "name")))
       (HDict [(u "name", HType TStr)]) = Ok false.
Proof.
  split.
  - apply (proj1 ensureheader_minimum_shape
             (JDict [(u "name", JStr (u "x"));
                     (u "more", JDict [(u "a", JInt 1)])])
             _ (HDict [(u "name", HType TStr)]) [SKey (u "more")]
             (u "extra") JNull).
    + reflexivity.
    + vm_compute. intros Hin. inversion Hin; subst. inversion H1.
    + reflexivity.
  - apply (proj1 (proj2 ensureheader_minimum_shape) _ _ _ true).
    + vm_compute. constructor.
    + reflexivity.
Defined.

(** ** The domain-prefix set *)

(** One directive of [domain_prefixes] on the set, for a non-empty
    entry. *)
Lemma load_domain_prefixes_step (cls : gset str) (c : N) (tail : str)
    (rest : list str) :
  load_domain_prefixes cls ((c :: tail) :: rest) =
  load_domain_prefixes
    (if (c =? 33)%N then cls ∖ {[ tail ]} else {[ c :: tail ]} ∪ cls) rest.
Proof. simpl. by destruct (c =? 33)%N. Qed.

(** A list of non-empty entries is applied to the end without an
    exception. *)
Lemma load_domain_prefixes_nonempty (prefixes : list str) :
  Forall (fun p => p ≠ []) prefixes ->
  forall cls, exists cls', load_domain_prefixes cls prefixes = (Ok (), cls').
Proof.
  induction 1 as [|p ps Hp _ IH]; intros cls; simpl; [eauto|].
  destruct p as [|c tail]; [done|]. destruct (c =? 33)%N; apply IH.
Qed.

(** Without settings the constructor leaves the class set as it finds
    it. *)
Lemma PIF_init_no_settings (cls : gset str) (f : handle) :
  (PIF_init cls f None).2 = cls.
Proof. reflexivity. Qed.

(** C4. The domain-prefix set is shared: after a first instance is built
    with the directive [!www], a second instance built without settings
    reads a set without [www], which the default set holds. *)
Theorem domain_prefixes_shared_between_instances :
  forall f1 f2 : handle,
    let first :=
      PIF_init default_domain_prefixes f1
        (Some (Settings (Some (Options None None (Some [u "!www"]))))) in
    let second := PIF_init first.2 f2 None in
    (u "www" ∈ default_domain_prefixes)
    /\ (u "www" ∉ second.2)
    /\ (second.2 ≠ default_domain_prefixes).
Proof.
  intros f1 f2 first second.
  assert (second.2 = default_domain_prefixes ∖ {[ u "www" ]}) as ->
    by reflexivity.
  assert (u "www" ∈ default_domain_prefixes) as Hin.
  { unfold default_domain_prefixes. apply elem_of_list_to_set.
    apply list_elem_of_here. }
  assert (u "www" ∉ default_domain_prefixes ∖ {[ u "www" ]}) as Hout.
  { intros [_ Hne]%elem_of_difference. apply Hne. by apply elem_of_singleton. }
  split; [done|]. split; [done|].
  intros Heq. by rewrite Heq in Hout.
Qed.

(** C5. The constructor does not accept an empty string among
    [domain_prefixes]: [prefix[0]] raises [IndexError], after the entries
    before it have been applied to the set. *)
Theorem PIF_init_empty_prefix_raises :
  forall (cls : gset str) (f : handle),
    PIF_init cls f (Some (Settings (Some (Options None (Some true) (Some [[]])))))
    = (Raise IndexError, cls)
    /\ PIF_init cls f
         (Some (Settings (Some (Options None None (Some [u "corp"; []])))))
       = (Raise IndexError, {[ u "corp" ]} ∪ cls).
Proof. intros cls f. split; reflexivity. Qed.

(** ** The entry extractor *)

Lemma foldM_app {A B : Type} (f : A -> B -> result A) (a : A) (l1 l2 : list B) :
  foldM f a (l1 ++ l2) =
  match foldM f a l1 with Ok a' => foldM f a' l2 | Raise e => Raise e end.
Proof.
  revert a. induction l1 as [|x l1 IH]; intros a; simpl; [done|].
  destruct (f a x); [apply IH | done].
Qed.

Lemma key_eq_str (k : atom) (s : str) : key_eq k (AStr s) = true <-> k = AStr s.
Proof.
  destruct k as [| | |f|t]; simpl; try (split; done).
  - destruct f; split; done.
  - unfold key_eq. simpl. rewrite str_eqb_eq. split; congruence.
Qed.

Lemma entry_get_set_eq (e : entry) (s : str) (v : json) :
  dict_get key_eq (dict_set key_eq e (AStr s) v) (AStr s) = Some v.
Proof.
  induction e as [|[k0 v0] e IH]; simpl.
  - by rewrite (proj2 (key_eq_str _ _)).
  - destruct (key_eq k0 (AStr s)) eqn:E; simpl; by rewrite E.
Qed.

Lemma entry_get_set_ne (e : entry) (k : atom) (s : str) (v : json) :
  k ≠ AStr s ->
  dict_get key_eq (dict_set key_eq e k v) (AStr s) = dict_get key_eq e (AStr s).
Proof.
  intros Hne. induction e as [|[k0 v0] e IH]; simpl.
  - destruct (key_eq k (AStr s)) eqn:E; [|done].
    by apply key_eq_str in E.
  - destruct (key_eq k0 k) eqn:E; simpl; [|by rewrite IH].
    destruct (key_eq k0 (AStr s)) eqn:E'; [|done].
    apply key_eq_str in E' as ->. exfalso. apply Hne.
    unfold key_eq in E. simpl in E. destruct k; try done.
    apply str_eqb_eq in E. by subst.
Qed.

Section ImportFacts.
Context {C : Collaborators}.

(** C6. A record whose [trashed] value is true adds no entry and no
    folder, whatever its [typeName]: the round of the loop returns the
    pair of entry list and folder map it was given, and taking the record
    out of the record list does not change what the loop computes. *)
Theorem trashed_record_contributes_nothing (self : PIF) (cls : gset str)
    (kvs : list (str * json)) (v : json) :
  dict_get str_eqb kvs (u "trashed") = Some v ->
  truthy v = true ->
  (forall st, parse_item self cls st (JDict kvs) = Ok st)
  /\ (forall st before after,
        foldM (parse_item self cls) st (before ++ JDict kvs :: after)
        = foldM (parse_item self cls) st (before ++ after)).
Proof.
  intros Hget Hv.
  assert (forall st, parse_item self cls st (JDict kvs) = Ok st) as Hitem.
  { intros st. unfold parse_item. by rewrite Hget; simpl; rewrite Hv. }
  split; [done|]. intros st before after.
  rewrite !foldM_app. destruct (foldM _ st before) as [st'|e]; [|done].
  cbn [foldM]. by rewrite Hitem.
Qed.

(** C9 (amended). The key under which a field's [value] is stored: the
    [designation] when it is present with a true value, else the [name]
    (the empty string when absent), renamed through the key map when the
    map has it. *)
Theorem collect_field_key (e : entry) (field : list (str * json))
    (jsonkey : str) :
  let designation := default (JStr []) (dict_get str_eqb field (u "designation")) in
  let name := default (JStr []) (dict_get str_eqb field (u "name")) in
  let value := default (JStr []) (dict_get str_eqb field (u "value")) in
  let key := default jsonkey (dict_get str_eqb invkeys jsonkey) in
  (truthy designation = true /\ designation = JStr jsonkey)
  \/ (truthy designation = false /\ name = JStr jsonkey) ->
  exists e',
    collect_field e (JDict field) = Ok e'
    /\ e' = dict_set key_eq e (AStr key) value
    /\ dict_get key_eq e' (AStr key) = Some value.
Proof.
  intros designation name value key Hcase.
  exists (dict_set key_eq e (AStr key) value).
  split; [|split; [done | apply entry_get_set_eq]].
  unfold collect_field. simpl.
  fold designation. fold name. fold value.
  destruct Hcase as [[-> ->]|[-> ->]]; reflexivity.
Qed.
End ImportFacts.

Lemma trashed_record_contributes_nothing_witness :
  parse_item (C := example_collaborators)
    (MkPIF false true (open_text []) JNull []) default_domain_prefixes ([], [])
    (JDict [(u "typeName", JStr (u "webforms.WebForm"));
            (u "trashed", JBool true)])
  = Ok ([], []).
Proof.
  apply (trashed_record_contributes_nothing (C := example_collaborators)
           _ _ _ (JBool true)); reflexivity.
Defined.

Lemma collect_field_key_witness :
  exists e',
    collect_field (C := example_collaborators) []
      (JDict [(u "name", JStr (u "username")); (u "value", JStr (u "bob"))])
    = Ok e'
    /\ e' = [(AStr (u "login"), JStr (u "bob"))]
    /\ dict_get key_eq e' (AStr (u "login")) = Some (JStr (u "bob")).
Proof.
  apply (collect_field_key (C := example_collaborators) []
           [(u "name", JStr (u "username")); (u "value", JStr (u "bob"))]
           (u "username")).
  right. split; reflexivity.
Defined.

(** C9 (as stated, refuted). A field whose [designation] is present and
    empty is stored under its [name], not under the designation. *)
Lemma collect_field_empty_designation :
  let field :=
    [(u "designation", JStr []); (u "name", JStr (u "username"));
     (u "value", JStr (u "bob"))] in
  dict_get str_eqb field (u "designation") = Some (JStr [])
  /\ collect_field (C := example_collaborators) [] (JDict field)
     = Ok [(AStr (u "login"), JStr (u "bob"))]
  /\ collect_field (C := example_collaborators) [] (JDict field)
     ≠ Ok (dict_set key_eq []
             (AStr (default ([] : str)
                      (dict_get str_eqb (invkeys (Collaborators := example_collaborators)) [])))
             (JStr (u "bob"))).
Proof. split; [reflexivity|]. split; [reflexivity|]. discriminate. Qed.

(** ** One-time-password discovery *)

Lemma find_otpauth_fields_app (l1 l2 : list json) :
  find_otpauth_fields (l1 ++ l2) =
  match find_otpauth_fields l1 with
  | Ok None => find_otpauth_fields l2
  | r => r
  end.
Proof.
  induction l1 as [|f l1 IH]; simpl; [done|].
  destruct (py_get f (u "v") JNull) as [v|e]; [|done].
  destruct (truthy v); [|done].
  destruct v as [[| | | |t]| |]; try done.
  by destruct (startswith t (u "otpauth:")).
Qed.

Lemma find_otpauth_fields_none (fs : list (list (str * json))) :
  Forall (fun f => passed_over (field_value f)) fs ->
  find_otpauth_fields (map JDict fs) = Ok None.
Proof.
  induction 1 as [|f fs Hf _ IH]; simpl; [done|].
  fold (field_value f). destruct Hf as [->|(t & -> & Hs)]; [done|].
  rewrite Hs. by destruct (truthy (JStr t)).
Qed.

Lemma find_otpauth_fields_hit (f : list (str * json)) (rest : list json)
    (t : str) :
  field_value f = JStr t ->
  startswith t (u "otpauth:") = true ->
  find_otpauth_fields (JDict f :: rest) = Ok (Some t).
Proof.
  intros Hv Hs. simpl. fold (field_value f). rewrite Hv, Hs.
  destruct t as [|c t]; [done|]. reflexivity.
Qed.

Lemma find_otpauth_sections_none (ss : list json)
    (fss : list (list (list (str * json)))) :
  Forall2 section_fields ss fss ->
  Forall (Forall (fun f => passed_over (field_value f))) fss ->
  forall rest, find_otpauth_sections (ss ++ rest) = find_otpauth_sections rest.
Proof.
  induction 1 as [|s fs ss fss (kvs & -> & Hfs) _ IH]; intros Hall rest;
    [done|].
  apply Forall_cons in Hall as [Hfs' Hall]. simpl. rewrite Hfs. simpl.
  rewrite (find_otpauth_fields_none _ Hfs'). by apply IH.
Qed.

(** [_find_otpauth] returns the first value, in section order and then
    field order, that begins with the prefix; what comes after it is not
    looked at. *)
Lemma find_otpauth_first (ss1 ss2 : list json)
    (fss1 : list (list (list (str * json)))) (skvs : list (str * json))
    (fs1 : list (list (str * json))) (f : list (str * json))
    (more : list json) (t : str) :
  Forall2 section_fields ss1 fss1 ->
  Forall (Forall (fun f => passed_over (field_value f))) fss1 ->
  default (JList []) (dict_get str_eqb skvs (u "fields"))
  = JList (map JDict fs1 ++ JDict f :: more) ->
  Forall (fun f => passed_over (field_value f)) fs1 ->
  field_value f = JStr t ->
  startswith t (u "otpauth:") = true ->
  find_otpauth (JList (ss1 ++ JDict skvs :: ss2)) = Ok (Some t).
Proof.
  intros Hss1 H1 Hfs Hfs1 Hv Hs. unfold find_otpauth. simpl.
  rewrite (find_otpauth_sections_none _ _ Hss1 H1). simpl.
  rewrite Hfs. simpl. rewrite find_otpauth_fields_app.
  rewrite (find_otpauth_fields_none _ Hfs1).
  by rewrite (find_otpauth_fields_hit _ _ _ Hv Hs).
Qed.

Lemma find_otpauth_none (ss : list json)
    (fss : list (list (list (str * json)))) :
  Forall2 section_fields ss fss ->
  Forall (Forall (fun f => passed_over (field_value f))) fss ->
  find_otpauth (JList ss) = Ok None.
Proof.
  intros Hss Hall. unfold find_otpauth. simpl.
  rewrite <- (app_nil_r ss). by rewrite (find_otpauth_sections_none _ _ Hss Hall).
Qed.

Section DictKeys.
Context {V : Type}.
Implicit Types (d e : list (str * V)) (k : str) (v : V).

Lemma dict_get_None d k : dict_get str_eqb d k = None <-> k ∉ d.*1.
Proof.
  induction d as [|[k0 v0] d IH]; simpl.
  - split; [intros _; apply not_elem_of_nil | done].
  - rewrite not_elem_of_cons. destruct (str_eqb k0 k) eqn:E.
    + apply str_eqb_eq in E as ->. split; [done | by intros [? _]].
    + rewrite IH. split; [|by intros [_ ?]]. intros ?. split; [|done].
      intros ->. by rewrite str_eqb_refl in E.
Qed.

Lemma dict_set_keys d k v k' :
  k' ∈ (dict_set str_eqb d k v).*1 -> k' = k \/ k' ∈ d.*1.
Proof.
  induction d as [|[k0 v0] d IH]; simpl.
  - intros ?%list_elem_of_singleton. by left.
  - destruct (str_eqb k0 k); simpl; rewrite !elem_of_cons; [by right|].
    intros [->|Hin]; [by right; left|]. destruct (IH Hin); auto.
Qed.

Lemma dict_del_keys d k k' : k' ∈ (dict_del str_eqb d k).*1 -> k' ∈ d.*1.
Proof.
  induction d as [|[k0 v0] d IH]; simpl; [done|].
  destruct (str_eqb k0 k); simpl; rewrite !elem_of_cons; [by right; auto|].
  intros [->|Hin]; auto.
Qed.

Lemma dict_update_keys e : forall d k',
  k' ∈ (dict_update str_eqb d e).*1 -> k' ∈ d.*1 \/ k' ∈ e.*1.
Proof.
  unfold dict_update.
  induction e as [|[k0 v0] e IH]; intros d k'; simpl; [by left|].
  intros [Hin|Hin]%IH; rewrite elem_of_cons; [|by right; right].
  apply dict_set_keys in Hin as [->|Hin]; auto.
Qed.
End DictKeys.

Section OtpFacts.
Context {C : Collaborators}.

Lemma merge_item_get (s : str) (item : list (str * json)) : forall e : entry,
  (forall k, k ∈ item.*1 ->
     k ∈ ignore \/ default k (dict_get str_eqb invkeys k) ≠ s) ->
  dict_get key_eq (merge_item e item) (AStr s) = dict_get key_eq e (AStr s).
Proof.
  unfold merge_item.
  induction item as [|[k v] item IH]; intros e Hk; simpl; [done|].
  rewrite IH.
  - case_bool_decide as Hig; [done|].
    apply entry_get_set_ne. intros [= Heq].
    destruct (Hk k) as [?|?]; [apply list_elem_of_here|done..].
  - intros k' Hin. apply Hk. by apply list_elem_of_further.
Qed.

Lemma rewrite_title_inv (self : PIF) (cls : gset str)
    (item item1 : list (str * json)) :
  rewrite_title self cls item = Ok item1 ->
  item1 = item \/ exists t, item1 = dict_set str_eqb item (u "title") (JStr t).
Proof.
  unfold rewrite_title. destruct (browserpass self); [|by intros [= <-]; left].
  destruct (if truthy _ then _ else _) as [title|e]; simpl; [|done].
  destruct (negb _); intros [= <-]; eauto.
Qed.

(** C7 (amended). For a record that [parse] turns into an entry, whose
    own keys and whose key map supply no [otpauth] key: when the sections
    hold a field value that begins with [otpauth:] and every value
    visited before it, in section order and then field order, is passed
    over, the entry's [otpauth] is that first value; and when every field
    value of every section is passed over, the OTP step leaves the entry
    as it is. *)
Theorem otpauth_first_match (self : PIF) (cls : gset str)
    (item sc : list (str * json)) (ss : list json) (e : entry) :
  (forall k, k ≠ u "otpauth" -> k ∉ ignore ->
     default k (dict_get str_eqb invkeys k) ≠ u "otpauth") ->
  dict_get str_eqb item (u "otpauth") = None ->
  dict_get str_eqb sc (u "otpauth") = None ->
  dict_get str_eqb item (u "secureContents") = Some (JDict sc) ->
  dict_get str_eqb sc (u "sections") = Some (JList ss) ->
  parse_webform self cls item = Ok e ->
  (forall (ss1 ss2 : list json) (fss1 : list (list (list (str * json))))
      (skvs : list (str * json)) (fs1 : list (list (str * json)))
      (f : list (str * json)) (more : list json) (t : str),
      ss = ss1 ++ JDict skvs :: ss2 ->
      Forall2 section_fields ss1 fss1 ->
      Forall (Forall (fun f => passed_over (field_value f))) fss1 ->
      default (JList []) (dict_get str_eqb skvs (u "fields"))
      = JList (map JDict fs1 ++ JDict f :: more) ->
      Forall (fun f => passed_over (field_value f)) fs1 ->
      field_value f = JStr t ->
      startswith t (u "otpauth:") = true ->
      dict_get key_eq e (AStr (u "otpauth")) = Some (JStr t))
  /\ (forall fss : list (list (list (str * json))),
        Forall2 section_fields ss fss ->
        Forall (Forall (fun f => passed_over (field_value f))) fss ->
        forall e0, add_otpauth e0 (JList ss) = Ok e0).
Proof.
  intros Hmap Hitem Hsc Hget Hsec Hparse. split.
  - intros ss1 ss2 fss1 skvs fs1 f more t -> Hss1 H1 Hfs Hfs1 Hv Hs.
    pose proof (find_otpauth_first _ ss2 _ _ _ _ _ _ Hss1 H1 Hfs Hfs1 Hv Hs)
      as Hfind.
    unfold parse_webform in Hparse.
    destruct (rewrite_title self cls item) as [item1|] eqn:Ht; [|done].
    simpl in Hparse.
    assert (dict_get str_eqb item1 (u "secureContents") = Some (JDict sc))
      as Hget1.
    { apply rewrite_title_inv in Ht as [->|[t' ->]]; [done|].
      by rewrite dict_get_set_ne. }
    rewrite Hget1 in Hparse. simpl in Hparse.
    destruct (py_iter _) as [fl|] eqn:Hfl; [|done]. simpl in Hparse.
    destruct (foldM collect_field [] fl) as [e1|] eqn:He1; [|done].
    simpl in Hparse.
    rewrite dict_get_del_ne in Hparse by done.
    rewrite Hsec in Hparse. simpl in Hparse.
    unfold add_otpauth in Hparse. rewrite Hfind in Hparse.
    assert (truthy (JList (ss1 ++ JDict skvs :: ss2)) = true) as Htr.
    { by destruct ss1. }
    rewrite Htr in Hparse. simpl in Hparse. injection Hparse as <-.
    rewrite merge_item_get; [apply entry_get_set_eq|].
    intros k Hin.
    destruct (decide (k ∈ ignore)) as [?|Hig]; [by left|]. right.
    apply Hmap; [|done]. intros ->.
    apply dict_update_keys in Hin as [Hin|Hin].
    + apply dict_del_keys in Hin.
      apply rewrite_title_inv in Ht as [->|[t' ->]].
      * by apply dict_get_None in Hitem.
      * apply dict_set_keys in Hin as [|Hin]; [done|].
        by apply dict_get_None in Hitem.
    + apply dict_del_keys, dict_del_keys in Hin.
      by apply dict_get_None in Hsc.
  - intros fss Hss Hall e0. unfold add_otpauth.
    rewrite (find_otpauth_none _ _ Hss Hall). simpl.
    by destruct (negb _).
Qed.
End OtpFacts.

Lemma example_collaborators_no_otpauth (k : str) :
  k ≠ u "otpauth" -> k ∉ ignore ->
  default k (dict_get str_eqb (invkeys (Collaborators := example_collaborators)) k)
  ≠ u "otpauth".
Proof.
  intros Hk _. simpl.
  repeat (match goal with
          | |- context [str_eqb ?a k] => destruct (str_eqb a k)
          end; [discriminate|]).
  exact Hk.
Qed.

Lemma otpauth_first_match_witness :
  exists e,
    parse_webform (C := example_collaborators)
      (MkPIF false true (open_text []) JNull []) default_domain_prefixes
      example_record
    = Ok e
    /\ dict_get key_eq e (AStr (u "otpauth")) = Some (JStr (u "otpauth://a")).
Proof.
  eexists. split; [vm_compute; reflexivity|].
  refine (proj1 (otpauth_first_match (C := example_collaborators)
                   (MkPIF false true (open_text []) JNull [])
                   default_domain_prefixes
                   example_record example_secure_contents
                   example_sections _ example_collaborators_no_otpauth
                   eq_refl eq_refl eq_refl eq_refl _)
            [JDict [(u "fields", JList [JDict [(u "v", JStr (u "plain"))]])]]
            [] [[[(u "v", JStr (u "plain"))]]]
            [(u "fields",
               JList [JDict [(u "v", JStr (u "otpauth://a"))];
                      JDict [(u "v", JStr (u "otpauth://b"))]])]
            [] [(u "v", JStr (u "otpauth://a"))]
            [JDict [(u "v", JStr (u "otpauth://b"))]]
            (u "otpauth://a") _ _ _ _ _ _ _).
  - vm_compute. reflexivity.
  - reflexivity.
  - constructor; [|constructor]. eexists. split; reflexivity.
  - constructor; [|constructor].
    constructor; [|constructor]. right. eexists. split; reflexivity.
  - reflexivity.
  - constructor.
  - reflexivity.
  - reflexivity.
Defined.

(** C7 (as stated, refuted). A record with a key [otpauth] of its own: the
    search finds the first field value, and the last loop of [parse] then
    stores the record's value under the same key. *)
Lemma otpauth_overridden_by_record_key :
  let sections :=
    JList
      [JDict [(u "fields", JList [JDict [(u "v", JStr (u "otpauth://a"))]])];
       JDict [(u "fields", JList [JDict [(u "v", JStr (u "otpauth://b"))]])]] in
  let record :=
    JDict [(u "typeName", JStr (u "webforms.WebForm"));
           (u "otpauth", JStr (u "mine"));
           (u "secureContents", JDict [(u "sections", sections)])] in
  find_otpauth sections = Ok (Some (u "otpauth://a"))
  /\ parse_item (C := example_collaborators)
       (MkPIF false true (open_text []) JNull []) default_domain_prefixes
       ([], []) record
     = Ok ([[(AStr (u "otpauth"), JStr (u "mine"))]], []).
Proof. split; vm_compute; reflexivity. Qed.

(** The search does not get past a field whose value is true and not a
    string, such as a number: [v.startswith] raises [AttributeError]. *)
Lemma find_otpauth_number_raises :
  find_otpauth
    (JList [JDict [(u "fields",
                     JList [JDict [(u "v", JInt 1577836800)];
                            JDict [(u "v", JStr (u "otpauth://a"))]])]])
  = Raise AttributeError.
Proof. reflexivity. Qed.

(** ** The marker pattern *)

#[local] Arguments N.eqb : simpl nomatch.
#[local] Arguments N.leb : simpl nomatch.
#[local] Arguments N.ltb : simpl nomatch.

Lemma stars_eq : u "***" = [42%N; 42%N; 42%N].
Proof. reflexivity. Qed.

Lemma strip_prefix_app (p r : str) : strip_prefix p (p ++ r) = Some r.
Proof.
  induction p as [|c p IH]; simpl; [by destruct r|]. by rewrite N.eqb_refl.
Qed.

Lemma strip_prefix_Some (p s r : str) : strip_prefix p s = Some r -> s = p ++ r.
Proof.
  revert s. induction p as [|c p IH]; intros s; simpl.
  - destruct s; by intros [= ->].
  - destruct s as [|d s]; [done|]. destruct (c =? d)%N eqn:E; [|done].
    apply N.eqb_eq in E as ->. by intros ->%IH.
Qed.

Lemma take_space_app (w r : str) :
  Forall (fun c => is_space c = true) w ->
  take_space (w ++ r) = (w ++ (take_space r).1, (take_space r).2).
Proof.
  induction 1 as [|c w Hc _ IH]; simpl; [by destruct (take_space r)|].
  by rewrite Hc, IH.
Qed.

Lemma take_space_shorter (s w r : str) :
  take_space s = (w, r) -> length r <= length s.
Proof.
  revert w r. induction s as [|c s IH]; intros w r; simpl.
  - intros [= <- <-]. done.
  - destruct (is_space c).
    + destruct (take_space s) as [w' r'] eqn:E. intros [= <- <-].
      specialize (IH _ _ eq_refl). lia.
    + intros [= <- <-]. done.
Qed.

Lemma match_tail_shorter (s w r : str) :
  match_tail s = Some (w, r) -> length r < length s.
Proof.
  unfold match_tail. destruct (strip_prefix (u "***") s) as [s'|] eqn:E; [|done].
  apply strip_prefix_Some in E as ->.
  destruct (take_space s') as [[|c w'] r'] eqn:E'; [done|].
  intros [= <- <-]. apply take_space_shorter in E'.
  rewrite length_app. simpl. lia.
Qed.

Lemma match_dotstar_shorter (s w r : str) :
  match_dotstar s = Some (w, r) -> length r < length s.
Proof.
  induction s as [|c s IH]; simpl.
  - apply match_tail_shorter.
  - destruct (c =? 10)%N; [apply (match_tail_shorter (c :: s))|].
    destruct (match_dotstar s) as [[w' r']|] eqn:E.
    + intros [= <- <-]. specialize (IH eq_refl). lia.
    + apply (match_tail_shorter (c :: s)).
Qed.

Lemma match_marker_shorter (s w r : str) :
  match_marker s = Some (w, r) -> length r < length s.
Proof.
  unfold match_marker. destruct (strip_prefix (u "***") s) as [s'|] eqn:E; [|done].
  apply strip_prefix_Some in E as ->. intros ?%match_dotstar_shorter.
  rewrite length_app. lia.
Qed.

(** The scan does not depend on the number of steps allowed, once there
    are as many as characters. *)
Lemma re_sub_markers_fuel (n : nat) : forall (m : nat) (b : bool) (s : str),
  length s <= n -> length s <= m ->
  re_sub_markers n b s = re_sub_markers m b s.
Proof.
  induction n as [|n IH]; intros m b s Hn Hm.
  - destruct s; [|simpl in Hn; lia]. by destruct m.
  - destruct s as [|c r]; [by destruct m|].
    destruct m as [|m]; [simpl in Hm; lia|]. simpl in *.
    destruct (if b then match_marker (c :: r) else None) as [[w rest]|] eqn:E.
    + assert (length rest < length (c :: r)) as Hlt.
      { destruct b; [|done]. by apply match_marker_shorter in E. }
      simpl in Hlt. apply IH; lia.
    + f_equal. apply IH; lia.
Qed.

Lemma re_sub_markers_match (n : nat) (s w rest : str) :
  length s <= n ->
  match_marker s = Some (w, rest) ->
  re_sub_markers n true s
  = re_sub_markers (length rest) (ends_with_newline w) rest.
Proof.
  intros Hn Hm. pose proof (match_marker_shorter _ _ _ Hm) as Hlt.
  destruct s as [|c r]; [simpl in Hlt; lia|].
  destruct n as [|n]; [simpl in Hn; lia|].
  cbn [re_sub_markers]. rewrite Hm. simpl in *.
  apply re_sub_markers_fuel; lia.
Qed.

Lemma re_sub_markers_keep (n : nat) (b : bool) (c : N) (r : str) :
  length (c :: r) <= n ->
  b = false \/ match_marker (c :: r) = None ->
  re_sub_markers n b (c :: r)
  = c :: re_sub_markers (length r) (c =? 10)%N r.
Proof.
  intros Hn Hb. destruct n as [|n]; [simpl in Hn; lia|].
  cbn [re_sub_markers].
  assert ((if b then match_marker (c :: r) else None) = None) as ->.
  { destruct Hb as [->| ->]; [done | by destruct b]. }
  f_equal. simpl in Hn. apply re_sub_markers_fuel; lia.
Qed.

Lemma is_space_not_star (c : N) : is_space c = true -> c ≠ 42%N.
Proof. by intros Hc ->. Qed.

Lemma match_tail_not_star (c : N) (s : str) :
  c ≠ 42%N -> match_tail (c :: s) = None.
Proof.
  intros Hc. unfold match_tail. rewrite stars_eq. simpl.
  destruct (42 =? c)%N eqn:E; [|done]. apply N.eqb_eq in E. by subst.
Qed.

(** After the spaces that follow a marker, nothing on the same line ends
    the pattern: the greedy [.*] cannot go further than the marker. *)
Lemma match_dotstar_spaces (w rest : str) :
  Forall (fun c => is_space c = true) w ->
  10%N ∈ w \/ rest = [] ->
  match_dotstar (w ++ rest) = None.
Proof.
  induction 1 as [|c w Hc _ IH]; intros Hnl; simpl.
  - destruct Hnl as [Hin| ->]; [by apply elem_of_nil in Hin | done].
  - rewrite (match_tail_not_star c) by by apply is_space_not_star.
    destruct (c =? 10)%N eqn:E; [done|]. rewrite IH; [done|].
    destruct Hnl as [Hin|?]; [left | by right].
    apply elem_of_cons in Hin as [<-|?]; [|done].
    by rewrite N.eqb_refl in E.
Qed.

Lemma match_dotstar_prefix (t s : str) (m : str * str) :
  10%N ∉ t ->
  match_dotstar s = Some m ->
  match_dotstar (t ++ s) = Some m.
Proof.
  intros Ht Hs. induction t as [|c t IH]; simpl; [done|].
  apply not_elem_of_cons in Ht as [Hc Ht].
  destruct (c =? 10)%N eqn:E; [apply N.eqb_eq in E; by subst|].
  by rewrite (IH Ht).
Qed.

(** The pattern on a marker followed by spaces: the match ends after the
    longest run of spaces. *)
Lemma match_marker_block (m w rest : str) :
  marker m -> spaces w ->
  10%N ∈ w \/ rest = [] ->
  match_marker (m ++ w ++ rest)
  = Some (w ++ (take_space rest).1, (take_space rest).2).
Proof.
  intros (t & -> & Ht) [Hne Hw] Hnl. unfold match_marker.
  rewrite <- !app_assoc. unfold stars at 1. rewrite strip_prefix_app.
  apply match_dotstar_prefix; [done|].
  destruct w as [|c w]; [done|].
  assert (c ≠ 42%N) as Hc.
  { apply Forall_cons in Hw as [Hc _]. by apply is_space_not_star. }
  change (stars ++ (c :: w) ++ rest)
    with (42%N :: 42%N :: 42%N :: (c :: w) ++ rest).
  cbn [match_dotstar]. change (42 =? 10)%N with false. cbv iota.
  rewrite (match_dotstar_spaces (c :: w) rest Hw Hnl).
  assert ((42 =? c)%N = false) as Ec by (apply N.eqb_neq; congruence).
  assert (match_tail (42%N :: (c :: w) ++ rest) = None) as ->.
  { unfold match_tail. rewrite stars_eq. simpl. by rewrite Ec. }
  assert (match_tail (42%N :: 42%N :: (c :: w) ++ rest) = None) as ->.
  { unfold match_tail. rewrite stars_eq. simpl. by rewrite Ec. }
  unfold match_tail.
  change (42%N :: 42%N :: 42%N :: (c :: w) ++ rest)
    with (u "***" ++ (c :: w) ++ rest).
  rewrite strip_prefix_app, (take_space_app _ _ Hw). done.
Qed.

Lemma ends_with_newline_elem (w : str) :
  ends_with_newline w = true -> 10%N ∈ w.
Proof.
  unfold ends_with_newline. destruct (last w) as [c|] eqn:E; [|done].
  intros ->%N.eqb_eq. apply last_Some in E as [w' ->].
  apply elem_of_app. right. apply list_elem_of_here.
Qed.

Lemma only_markers_take_space (s : str) :
  only_markers s -> take_space s = ([], s).
Proof.
  intros [|m w rest (t & -> & _) _ _ _]; [done|].
  rewrite <- !app_assoc. reflexivity.
Qed.

(** Text made of marker lines only is deleted as a whole. *)
Lemma re_sub_markers_only_markers (s : str) :
  only_markers s -> re_sub_markers (length s) true s = [].
Proof.
  induction 1 as [|m w rest Hm Hw Hnl Hrest IH]; [done|].
  rewrite (re_sub_markers_match _ _ (w ++ []) rest); [|done|].
  - destruct Hnl as [Hnl| ->]; [|done]. by rewrite app_nil_r, Hnl.
  - rewrite (match_marker_block m w rest Hm Hw).
    + by rewrite (only_markers_take_space _ Hrest).
    + destruct Hnl as [Hnl|?]; [left | by right].
      by apply ends_with_newline_elem.
Qed.

(** C10. On the empty text and on text made of marker lines only,
    [pif2json] returns the empty list, and [is_format] answers [True]: the
    detector accepts content without any record. *)
Theorem is_format_accepts_no_records (text : str) :
  only_markers text ->
  pif2json_text text = Ok (JList [])
  /\ forall self : PIF,
       file self = open_text text ->
       is_format self
       = (Ok true,
          MkPIF (browserpass self) (strip_domain_prefixes self)
            (Handle (Some text) (length text)) (JList []) (data self)).
Proof.
  intros Hm.
  assert (pif2json_text text = Ok (JList [])) as Htext.
  { unfold pif2json_text. by rewrite (re_sub_markers_only_markers _ Hm). }
  split; [done|]. intros self Hf.
  unfold is_format, pif2json, file_read. rewrite Hf.
  cbn [open_text f_text f_pos mbind result_bind]. rewrite drop_0.
  by rewrite Htext.
Qed.

Lemma is_format_accepts_no_records_witness :
  pif2json_text (u "***X***" ++ [10%N] ++ u "***Y***" ++ [32%N] ++ [])
  = Ok (JList []).
Proof.
  apply is_format_accepts_no_records.
  apply only_markers_cons.
  - exists (u "X"). split; [reflexivity|].
    intros [=]%list_elem_of_singleton.
  - split; [done|]. by repeat constructor.
  - by left.
  - apply only_markers_cons.
    + exists (u "Y"). split; [reflexivity|].
      intros [=]%list_elem_of_singleton.
    + split; [done|]. by repeat constructor.
    + by right.
    + constructor.
Defined.

(** ** Detection followed by import *)

Lemma file_read_open (text : str) :
  file_read (open_text text) = (Ok text, Handle (Some text) (length text)).
Proof. unfold file_read, open_text. simpl. by rewrite drop_0. Qed.

Lemma file_read_at_end (text : str) :
  file_read (Handle (Some text) (length text))
  = (Ok [], Handle (Some text) (length text)).
Proof. unfold file_read. simpl. by rewrite drop_all. Qed.

Section DetectThenParse.
Context {C : Collaborators}.

Lemma parse_item_attributes (self1 self2 : PIF) (cls : gset str) :
  browserpass self1 = browserpass self2 ->
  strip_domain_prefixes self1 = strip_domain_prefixes self2 ->
  parse_item self1 cls = parse_item self2 cls.
Proof.
  intros Hb Hs. unfold parse_item, parse_webform, rewrite_title, get_domain.
  by rewrite Hb, Hs.
Qed.

Lemma entries_of_bind (m : result (list entry)) (b s : bool) (f : handle)
    (j : json) :
  entries_of (d ← m; Ok (MkPIF b s f j d)) = m.
Proof. by destruct m. Qed.

(** C3 (amended). Detection reads the handle to its end. After
    [is_format] has answered [True] on newly opened content, a [parse]
    without rewinding decodes the empty text: it emits no entry, and
    [self.data] is what [_sortgroup] makes of the entries held before with
    an empty folder map. Once the handle is rewound, [parse] gives the
    entries of a direct [parse] of the content. *)
Theorem parse_after_is_format (self self' : PIF) (cls : gset str) (text : str) :
  file self = open_text text ->
  is_format self = (Ok true, self') ->
  file self' = Handle (Some text) (length text)
  /\ entries_of (parse self' cls) = sortgroup [] (data self)
  /\ entries_of (parse (with_file self' (rewind (file self'))) cls)
     = entries_of (parse self cls).
Proof.
  intros Hf Hfmt. unfold is_format, pif2json in Hfmt.
  rewrite Hf, file_read_open in Hfmt. cbn [mbind result_bind] in Hfmt.
  destruct (pif2json_text text) as [j|e] eqn:Htext.
  2: { by destruct e. }
  injection Hfmt as <-. cbn [file]. split; [done|]. split.
  - unfold parse, pif2json. cbn [file]. rewrite file_read_at_end.
    cbn [mbind result_bind]. change (pif2json_text []) with (Ok (JList [])).
    cbn [py_iter foldM data browserpass strip_domain_prefixes jsons fst snd].
    apply entries_of_bind.
  - unfold parse, pif2json, with_file, rewind.
    cbn [file f_text data browserpass strip_domain_prefixes jsons].
    rewrite Hf. fold (open_text text). rewrite file_read_open.
    cbn [mbind result_bind].
    destruct (pif2json_text text ≫= py_iter) as [items|]; [|done].
    cbn [mbind result_bind].
    rewrite (parse_item_attributes (MkPIF _ _ (open_text text) j _) self cls
               eq_refl eq_refl).
    destruct (foldM (parse_item self cls) (data self, []) items) as [st|];
      [|done].
    cbn [mbind result_bind]. by rewrite !entries_of_bind.
Qed.
End DetectThenParse.

Lemma parse_after_is_format_witness :
  let text := js "{'typeName':'webforms.WebForm','title':'t'}" in
  let self := MkPIF false true (open_text text) JNull [] in
  entries_of (parse (C := example_collaborators) (is_format self).2
                default_domain_prefixes)
  = Ok [].
Proof.
  intros text self.
  refine (proj1 (proj2 (parse_after_is_format (C := example_collaborators)
                          self (is_format self).2 default_domain_prefixes text
                          _ _))).
  - reflexivity.
  - vm_compute. reflexivity.
Defined.

(** C3 (as stated, refuted). One credential record: [is_format] answers
    [True], the [parse] that follows on the same instance yields no entry,
    a direct [parse] of the content yields one. *)
Lemma parse_after_is_format_loses_records :
  let text := js "{'typeName':'webforms.WebForm','title':'t'}" in
  let self := MkPIF false true (open_text text) JNull [] in
  (is_format self).1 = Ok true
  /\ entries_of (parse (C := example_collaborators) (is_format self).2
                   default_domain_prefixes) = Ok []
  /\ entries_of (parse (C := example_collaborators) self
                   default_domain_prefixes)
     = Ok [[(AStr (u "title"), JStr (u "t"))]].
Proof. split; [|split]; vm_compute; reflexivity. Qed.

(** ** The decoder: what a scanner leaves unread *)


Lemma leaves_length (s r : str) : leaves s r -> length r < length s.
Proof.
  intros (pre & Hne & ->). rewrite length_app. destruct pre; [done|]. simpl. lia.
Qed.

Lemma leaves_cons (c : N) (s r : str) : r `suffix_of` s -> leaves (c :: s) r.
Proof. intros [k ->]. by exists (c :: k). Qed.

Lemma leaves_suffix (s r : str) : leaves s r -> r `suffix_of` s.
Proof. intros (pre & _ & ->). by exists pre. Qed.

Lemma leaves_trans_l (s r r' : str) :
  leaves s r -> r' `suffix_of` r -> leaves s r'.
Proof.
  intros (pre & Hne & ->) [k ->]. exists (pre ++ k). split.
  - by destruct pre.
  - by rewrite app_assoc.
Qed.

Lemma leaves_trans_r (s s' r : str) :
  s' `suffix_of` s -> leaves s' r -> leaves s r.
Proof.
  intros [k ->] (pre & Hne & ->). exists (k ++ pre). split.
  - by destruct k, pre.
  - by rewrite app_assoc.
Qed.

Lemma skip_ws_suffix (s : str) : skip_ws s `suffix_of` s.
Proof.
  induction s as [|c s IH]; simpl; [done|].
  destruct (is_ws c); [by apply suffix_cons_r | done].
Qed.

Lemma skip_ws_split (s : str) :
  exists w, s = w ++ skip_ws s /\ Forall (fun c => is_ws c = true) w.
Proof.
  induction s as [|c s (w & Hs & Hw)]; simpl; [by exists []|].
  destruct (is_ws c) eqn:E; [|by exists []].
  exists (c :: w). split; [by rewrite Hs at 1 | by constructor].
Qed.

Lemma skip_ws_all (w s : str) :
  Forall (fun c => is_ws c = true) w -> skip_ws (w ++ s) = skip_ws s.
Proof. induction 1 as [|c w Hc _ IH]; simpl; [done|]. by rewrite Hc. Qed.

Lemma skip_ws_cons (s r : str) (c : N) :
  skip_ws s = c :: r -> is_ws c = false.
Proof.
  induction s as [|d s IH]; simpl; [done|].
  destruct (is_ws d) eqn:E; [done|]. by intros [= <- _].
Qed.

Lemma skip_ws_app (s r t : str) (c : N) :
  skip_ws s = c :: r -> skip_ws (s ++ t) = c :: r ++ t.
Proof.
  induction s as [|d s IH]; simpl; [done|].
  destruct (is_ws d); [done|]. by intros [= -> ->].
Qed.

Lemma skip_ws_nil (s : str) :
  skip_ws s = [] -> Forall (fun c => is_ws c = true) s.
Proof.
  induction s as [|d s IH]; simpl; [done|].
  destruct (is_ws d) eqn:E; [|done]. intros ?. constructor; auto.
Qed.

Lemma strip_prefix_app_r (p s r t : str) :
  strip_prefix p s = Some r -> strip_prefix p (s ++ t) = Some (r ++ t).
Proof.
  intros ->%strip_prefix_Some. rewrite <- app_assoc. apply strip_prefix_app.
Qed.

Lemma take_digits_split (s ds r : str) : take_digits s = (ds, r) -> s = ds ++ r.
Proof.
  revert ds r. induction s as [|c s IH]; intros ds r; simpl.
  - by intros [= <- <-].
  - destruct (is_digit c).
    + destruct (take_digits s) as [ds' r']. intros [= <- <-].
      by rewrite (IH _ _ eq_refl).
    + by intros [= <- <-].
Qed.

Lemma take_digits_app (s ds r t : str) (c : N) :
  take_digits s = (ds, c :: r) -> take_digits (s ++ t) = (ds, c :: r ++ t).
Proof.
  revert ds. induction s as [|d s IH]; intros ds; simpl; [done|].
  destruct (is_digit d).
  - destruct (take_digits s) as [ds' r'] eqn:E. intros [= <- ->].
    by rewrite (IH _ eq_refl).
  - by intros [= <- -> ->].
Qed.

Lemma scan_fraction_suffix (s fd r : str) :
  scan_fraction s = (fd, r) -> r `suffix_of` s.
Proof.
  unfold scan_fraction. destruct s as [|d s]; [by intros [= <- <-]|].
  destruct (d =? 46)%N; [|by intros [= <- <-]].
  destruct (take_digits s) as [[|f fd'] r'] eqn:E; intros [= <- <-]; [done|].
  apply take_digits_split in E as ->. apply suffix_cons_r.
  by apply suffix_app_r.
Qed.

Lemma scan_fraction_app (s fd r t : str) (c : N) :
  scan_fraction s = (fd, c :: r) -> c ≠ 46%N ->
  scan_fraction (s ++ t) = (fd, c :: r ++ t).
Proof.
  unfold scan_fraction. destruct s as [|d s]; [done|]. simpl.
  destruct (d =? 46)%N eqn:Ed; [|by intros [= <- -> ->]].
  destruct (take_digits s) as [[|f fd'] r'] eqn:E.
  - intros [= <- -> ->] Hc. by apply N.eqb_eq in Ed.
  - intros [= <- ->] _. by rewrite (take_digits_app _ _ _ _ _ E).
Qed.



Lemma scan_exponent_suffix (s r : str) (ex : option Z) :
  scan_exponent s = (ex, r) -> r `suffix_of` s.
Proof.
  unfold scan_exponent. destruct s as [|e s]; [by intros [= <- <-]|].
  destruct (_ || _); [|by intros [= <- <-]].
  destruct (match s with [] => _ | _ => _ end) as [sgn r1] eqn:Es.
  assert (r1 `suffix_of` s) as Hr1.
  { destruct s as [|c s']; [by injection Es as <- <-|].
    destruct (c =? 45)%N; [injection Es as <- <-; by apply suffix_cons_r|].
    destruct (c =? 43)%N; injection Es as <- <-; [by apply suffix_cons_r|done]. }
  destruct (take_digits r1) as [[|f ds] r2] eqn:E; intros [= <- <-]; [done|].
  apply take_digits_split in E. apply suffix_cons_r. etrans; [|exact Hr1].
  rewrite E. by apply suffix_app_r.
Qed.

Lemma scan_exponent_app (s r t : str) (ex : option Z) :
  scan_exponent s = (ex, r) -> stop r = true ->
  scan_exponent (s ++ t) = (ex, r ++ t).
Proof.
  unfold scan_exponent. destruct s as [|e s]; [by intros [= <- <-]|]. simpl.
  destruct ((e =? 101)%N || (e =? 69)%N) eqn:Ee; [|by intros [= <- <-]].
  destruct (match s with [] => _ | _ => _ end) as [sgn r1] eqn:Es.
  destruct (take_digits r1) as [[|f ds] r2] eqn:E.
  { intros [= <- <-]. simpl. unfold numchar.
    apply orb_true_iff in Ee as [->| ->]; by rewrite ?orb_true_r. }
  intros [= <- <-] Hstop. destruct r2 as [|c r2]; [done|].
  assert (match s ++ t with
          | [] => (false, s ++ t)
          | c0 :: r' =>
              if (c0 =? 45)%N then (true, r')
              else if (c0 =? 43)%N then (false, r') else (false, s ++ t)
          end = (sgn, r1 ++ t)) as ->.
  { destruct s as [|c0 s']; [by injection Es as <- <-|]. simpl.
    destruct (c0 =? 45)%N; [by injection Es as <- <-|].
    destruct (c0 =? 43)%N; by injection Es as <- <-. }
  by rewrite (take_digits_app _ _ _ _ _ E).
Qed.

Lemma scan_number_leaves (s r : str) (a : atom) :
  scan_number s = Some (a, r) -> leaves s r.
Proof.
  unfold scan_number.
  destruct (match s with [] => _ | _ => _ end) as [neg s1] eqn:Es.
  assert (s1 `suffix_of` s) as Hs1.
  { destruct s as [|c s']; [by injection Es as <- <-|].
    destruct (c =? 45)%N; injection Es as <- <-; [by apply suffix_cons_r|done]. }
  destruct s1 as [|c r0]; [done|]. destruct (is_digit c); [|done].
  destruct (if (c =? 48)%N then _ else _) as [ds r1] eqn:E1.
  assert (r1 `suffix_of` r0) as Hr1.
  { destruct (c =? 48)%N; [by injection E1 as <- <-|].
    apply take_digits_split in E1 as ->. by apply suffix_app_r. }
  destruct (scan_fraction r1) as [fd r2] eqn:E2.
  destruct (scan_exponent r2) as [ex r3] eqn:E3.
  apply scan_fraction_suffix in E2. apply scan_exponent_suffix in E3.
  intros Hr. assert (r = r3) as -> by (destruct fd, ex; congruence).
  eapply leaves_trans_r; [exact Hs1|]. apply leaves_cons.
  etrans; [exact E3|]. by etrans.
Qed.

Lemma scan_number_digits_app (neg : bool) (c : N) (r0 r t : str) (a : atom) :
  (if is_digit c then
     let '(ds, r1) := if (c =? 48)%N then ([], r0) else take_digits r0 in
     let '(fd, r2) := scan_fraction r1 in
     let '(ex, r3) := scan_exponent r2 in
     match fd, ex with
     | [], None =>
         let z := Z_of_digits (c :: ds) in
         Some (AInt (if neg then (- z)%Z else z), r3)
     | _, _ =>
         Some (AFloat (float_of_decimal neg (Z_of_digits ((c :: ds) ++ fd))
                         (default 0%Z ex - Z.of_nat (length fd))), r3)
     end
   else None) = Some (a, r) ->
  stop r = true ->
  (if is_digit c then
     let '(ds, r1) :=
       if (c =? 48)%N then ([], r0 ++ t) else take_digits (r0 ++ t) in
     let '(fd, r2) := scan_fraction r1 in
     let '(ex, r3) := scan_exponent r2 in
     match fd, ex with
     | [], None =>
         let z := Z_of_digits (c :: ds) in
         Some (AInt (if neg then (- z)%Z else z), r3)
     | _, _ =>
         Some (AFloat (float_of_decimal neg (Z_of_digits ((c :: ds) ++ fd))
                         (default 0%Z ex - Z.of_nat (length fd))), r3)
     end
   else None) = Some (a, r ++ t).
Proof.
  destruct (is_digit c); [|done].
  destruct (if (c =? 48)%N then ([], r0) else take_digits r0) as [ds r1] eqn:E1.
  destruct (scan_fraction r1) as [fd r2] eqn:E2.
  destruct (scan_exponent r2) as [ex r3] eqn:E3.
  intros Hr Hstop.
  assert (r = r3) as -> by (destruct fd, ex; congruence).
  (* the text left after each part is not empty *)
  assert (exists c2 r2', r2 = c2 :: r2' /\ c2 ≠ 46%N) as (c2 & r2' & -> & Hc2).
  { destruct r2 as [|c2 r2'].
    - unfold scan_exponent in E3. injection E3 as <- <-. done.
    - exists c2, r2'. split; [done|]. intros ->.
      unfold scan_exponent in E3. simpl in E3. injection E3 as <- <-. done. }
  assert (exists c1 r1', r1 = c1 :: r1') as (c1 & r1' & ->).
  { destruct r1 as [|c1 r1']; [|by eauto].
    by unfold scan_fraction in E2. }
  assert ((if (c =? 48)%N then ([], r0 ++ t) else take_digits (r0 ++ t))
          = (ds, (c1 :: r1') ++ t)) as ->.
  { destruct (c =? 48)%N; [by injection E1 as <- <-|].
    by apply take_digits_app. }
  cbv beta iota. rewrite (scan_fraction_app _ _ _ _ _ E2 Hc2). cbv beta iota.
  change (c2 :: r2' ++ t) with ((c2 :: r2') ++ t).
  rewrite (scan_exponent_app _ _ _ _ E3 Hstop).
  by destruct fd, ex; injection Hr as <-.
Qed.

Lemma scan_number_app (s r t : str) (a : atom) :
  scan_number s = Some (a, r) -> stop r = true ->
  scan_number (s ++ t) = Some (a, r ++ t).
Proof.
  unfold scan_number. destruct s as [|c0 s]; [done|]. cbn [app].
  destruct (c0 =? 45)%N.
  - destruct s as [|c r0]; [done|]. cbn [app]. apply scan_number_digits_app.
  - apply scan_number_digits_app.
Qed.

Lemma push_Some (c : N) (o : option (str * str)) (x r : str) :
  push c o = Some (x, r) -> exists x', o = Some (x', r) /\ x = c :: x'.
Proof. destruct o as [[x' r']|]; [|done]. intros [= <- <-]. eauto. Qed.

Lemma push_app (c : N) (o o' : option (str * str)) (x r t : str) :
  push c o = Some (x, r) ->
  (forall x', o = Some (x', r) -> o' = Some (x', r ++ t)) ->
  push c o' = Some (x, r ++ t).
Proof.
  intros (x' & -> & ->)%push_Some Ho. by rewrite (Ho x' eq_refl).
Qed.

(** [scanstring] reads to the closing quote whatever follows it. *)
Lemma scanstring_app_leaves (n : nat) : forall (s x r : str),
  length s <= n ->
  scanstring s = Some (x, r) ->
  leaves s r /\ forall t, scanstring (s ++ t) = Some (x, r ++ t).
Proof.
  induction n as [|n IH]; intros s x r Hn;
    (destruct s as [|c s]; [done|]); [simpl in Hn; lia|].
  simpl in Hn. cbn [scanstring app].
  assert (forall (c' : N) (s' : str),
            length s' <= n -> s' `suffix_of` s ->
            push c' (scanstring s') = Some (x, r) ->
            leaves (c :: s) r
            /\ forall t, push c' (scanstring (s' ++ t)) = Some (x, r ++ t))
    as Hpush.
  { intros c' s' Hlen Hsuf (x' & Hs' & ->)%push_Some.
    destruct (IH _ _ _ Hlen Hs') as [Hl Happ]. split.
    - apply leaves_cons. etrans; [by apply leaves_suffix|done].
    - intros t. by rewrite Happ. }
  destruct (c =? 34)%N.
  { intros [= <- <-]. split; [by apply leaves_cons|done]. }
  destruct (c =? 92)%N.
  2: { destruct (c <? 32)%N; [done|]. apply Hpush; [lia|done]. }
  destruct s as [|e r1]; [done|]. cbn [app]. simpl in Hn.
  destruct (e =? 117)%N.
  2: { destruct (unescape e); [|done].
       apply Hpush; [lia | by apply suffix_cons_r]. }
  destruct r1 as [|h1 [|h2 [|h3 [|h4 r2]]]]; try done. cbn [app].
  simpl in Hn.
  assert (r2 `suffix_of` e :: h1 :: h2 :: h3 :: h4 :: r2) as Hr2
    by (by do 5 apply suffix_cons_r).
  destruct (hex4 h1 h2 h3 h4) as [uni|]; [|done].
  destruct (_ && _).
  2: { apply Hpush; [lia|done]. }
  destruct r2 as [|b [|v r2']].
  - done.
  - intros H. destruct (Hpush uni [b] ltac:(simpl; lia) Hr2 H) as [Hl Happ].
    split; [done|]. intros t. specialize (Happ t).
    destruct t as [|v t]; [done|]. cbn [app].
    destruct (b =? 92)%N eqn:Eb; [|done].
    apply N.eqb_eq in Eb as ->. by simpl in H.
  - cbn [app]. simpl in Hn. destruct ((b =? 92)%N && (v =? 117)%N) eqn:Ebv.
    2: { intros H.
         destruct (Hpush uni (b :: v :: r2') ltac:(simpl; lia) Hr2 H)
           as [Hl Happ]. done. }
    destruct r2' as [|l1 [|l2 [|l3 [|l4 r3]]]]; try done. cbn [app].
    simpl in Hn.
    destruct (hex4 l1 l2 l3 l4) as [uni2|]; [|done].
    destruct ((56320 <=? uni2)%N && _).
    + intros H.
      destruct (Hpush _ r3 ltac:(lia)
                  ltac:(etrans; [|exact Hr2]; by do 6 apply suffix_cons_r) H)
        as [Hl Happ]. done.
    + intros H.
      destruct (Hpush uni (b :: v :: l1 :: l2 :: l3 :: l4 :: r3)
                  ltac:(simpl; lia) Hr2 H) as [Hl Happ]. done.
Qed.

Lemma scanstring_leaves (s x r : str) :
  scanstring s = Some (x, r) -> leaves s r.
Proof. intros H. by apply (scanstring_app_leaves (length s) s x r). Qed.

Lemma scanstring_app (s x r t : str) :
  scanstring s = Some (x, r) -> scanstring (s ++ t) = Some (x, r ++ t).
Proof. intros H. by apply (scanstring_app_leaves (length s) s x r). Qed.

Lemma scan_key_leaves (s k r : str) : scan_key s = Some (k, r) -> leaves s r.
Proof.
  unfold scan_key. destruct (scanstring s) as [[key r0]|] eqn:E; [|done].
  destruct (skip_ws r0) as [|c r1] eqn:E1; [done|].
  destruct (c =? 58)%N; [|done]. intros [= <- <-].
  apply scanstring_leaves in E. eapply leaves_trans_l; [exact E|].
  etrans; [apply skip_ws_suffix|]. etrans; [|apply skip_ws_suffix].
  rewrite E1. by apply suffix_cons_r.
Qed.

Lemma scan_key_app (s k r t : str) (c : N) :
  scan_key s = Some (k, c :: r) -> scan_key (s ++ t) = Some (k, c :: r ++ t).
Proof.
  unfold scan_key. destruct (scanstring s) as [[key r0]|] eqn:E; [|done].
  rewrite (scanstring_app _ _ _ t E).
  destruct (skip_ws r0) as [|d r1] eqn:E1; [done|].
  rewrite (skip_ws_app _ _ t _ E1).
  destruct (d =? 58)%N; [|done]. intros [= <- Hr].
  by rewrite (skip_ws_app _ _ t _ Hr).
Qed.

Lemma scan_number_not_digit (c : N) (s : str) :
  is_digit c = false -> c ≠ 45%N -> scan_number (c :: s) = None.
Proof.
  intros Hd Hc. unfold scan_number.
  destruct (c =? 45)%N eqn:E; [by apply N.eqb_eq in E|]. by rewrite Hd.
Qed.

(** [scan_atom] by the first character. *)
Lemma scan_atom_eq (c : N) (s : str) :
  scan_atom (c :: s) =
  if (110 =? c)%N then
    match strip_prefix (u "ull") s with Some r => POk JNull r | None => PErr end
  else if (116 =? c)%N then
    match strip_prefix (u "rue") s with
    | Some r => POk (JBool true) r
    | None => PErr
    end
  else if (102 =? c)%N then
    match strip_prefix (u "alse") s with
    | Some r => POk (JBool false) r
    | None => PErr
    end
  else
    match scan_number (c :: s) with
    | Some (a, r) => POk (JAtom a) r
    | None =>
        if (78 =? c)%N then
          match strip_prefix (u "aN") s with
          | Some r => POk (JFloat S754_nan) r
          | None => PErr
          end
        else if (73 =? c)%N then
          match strip_prefix (u "nfinity") s with
          | Some r => POk (JFloat (S754_infinity false)) r
          | None => PErr
          end
        else if (45 =? c)%N then
          match strip_prefix (u "Infinity") s with
          | Some r => POk (JFloat (S754_infinity true)) r
          | None => PErr
          end
        else PErr
    end.
Proof.
  unfold scan_atom.
  change (u "null") with (110%N :: u "ull").
  change (u "true") with (116%N :: u "rue").
  change (u "false") with (102%N :: u "alse").
  change (u "NaN") with (78%N :: u "aN").
  change (u "Infinity") with (73%N :: u "nfinity") at 1.
  change (u "-Infinity") with (45%N :: u "Infinity").
  cbn [strip_prefix].
  destruct (110 =? c)%N eqn:E1.
  { apply N.eqb_eq in E1 as <-.
    destruct (strip_prefix (u "ull") s); [done|]. reflexivity. }
  destruct (116 =? c)%N eqn:E2.
  { apply N.eqb_eq in E2 as <-.
    destruct (strip_prefix (u "rue") s); [done|]. reflexivity. }
  destruct (102 =? c)%N eqn:E3.
  { apply N.eqb_eq in E3 as <-.
    destruct (strip_prefix (u "alse") s); [done|]. reflexivity. }
  destruct (scan_number (c :: s)) as [[a r]|]; [done|].
  destruct (78 =? c)%N eqn:E4.
  { apply N.eqb_eq in E4 as <-.
    destruct (strip_prefix (u "aN") s); [done|]. reflexivity. }
  destruct (73 =? c)%N eqn:E5.
  { apply N.eqb_eq in E5 as <-.
    destruct (strip_prefix (u "nfinity") s); [done|]. reflexivity. }
  by destruct (45 =? c)%N.
Qed.

Lemma scan_atom_leaves (s r : str) (v : json) :
  scan_atom s = POk v r -> leaves s r.
Proof.
  destruct s as [|c s]; [done|]. rewrite scan_atom_eq.
  assert (forall p, strip_prefix p s = Some r -> leaves (c :: s) r) as Hp.
  { intros p ->%strip_prefix_Some. apply leaves_cons. by apply suffix_app_r. }
  repeat match goal with
         | |- context [if ?b then _ else _] => destruct b
         | |- context [strip_prefix ?p s] =>
             let E := fresh in
             destruct (strip_prefix p s) eqn:E;
             [intros [= <- <-]; by apply (Hp _ E) | done]
         | |- context [scan_number (c :: s)] =>
             let E := fresh in
             destruct (scan_number (c :: s)) as [[? ?]|] eqn:E;
             [intros [= <- <-]; by apply scan_number_leaves in E |]
         end; done.
Qed.

Lemma scan_atom_not_container (s r : str) (v : json) :
  scan_atom s = POk v r ->
  match v with JAtom (AStr _) | JList _ | JDict _ => False | JAtom _ => True end.
Proof.
  destruct s as [|c s]; [done|]. rewrite scan_atom_eq.
  assert (forall (a : atom) (r' : str), scan_number (c :: s) = Some (a, r') ->
            match a with AStr _ => False | _ => True end) as Hnum.
  { unfold scan_number.
    destruct (if (c =? 45)%N then _ else _) as [neg [|d r0]]; [done|].
    destruct (is_digit d); [|done].
    destruct (if (d =? 48)%N then _ else _) as [ds r1].
    destruct (scan_fraction r1) as [fd r2].
    destruct (scan_exponent r2) as [ex r3].
    by destruct fd, ex; intros a r' [= <- _]. }
  destruct (110 =? c)%N.
  { destruct (strip_prefix _ s); [by intros [= <- <-] | done]. }
  destruct (116 =? c)%N.
  { destruct (strip_prefix _ s); [by intros [= <- <-] | done]. }
  destruct (102 =? c)%N.
  { destruct (strip_prefix _ s); [by intros [= <- <-] | done]. }
  destruct (scan_number (c :: s)) as [[a r']|] eqn:E.
  { intros [= <- <-]. specialize (Hnum _ _ eq_refl). by destruct a. }
  destruct (78 =? c)%N.
  { destruct (strip_prefix _ s); [by intros [= <- <-] | done]. }
  destruct (73 =? c)%N.
  { destruct (strip_prefix _ s); [by intros [= <- <-] | done]. }
  destruct (45 =? c)%N; [|done].
  destruct (strip_prefix _ s); [by intros [= <- <-] | done].
Qed.

Lemma scan_atom_app (s r t : str) (v : json) :
  scan_atom s = POk v r -> stop r = true ->
  scan_atom (s ++ t) = POk v (r ++ t).
Proof.
  destruct s as [|c s]; [done|]. cbn [app]. rewrite !scan_atom_eq.
  assert (forall p (w : json),
            match strip_prefix p s with Some r => POk w r | None => PErr end
            = POk v r ->
            match strip_prefix p (s ++ t) with
            | Some r => POk w r
            | None => PErr
            end = POk v (r ++ t)) as Hp.
  { intros p w. destruct (strip_prefix p s) as [r'|] eqn:E; [|done].
    intros [= <- <-]. by rewrite (strip_prefix_app_r _ _ _ t E). }
  destruct (110 =? c)%N; [intros ? _; by apply Hp|].
  destruct (116 =? c)%N; [intros ? _; by apply Hp|].
  destruct (102 =? c)%N; [intros ? _; by apply Hp|].
  destruct (scan_number (c :: s)) as [[a r']|] eqn:En.
  { intros [= <- <-] Hstop.
    change (c :: s ++ t) with ((c :: s) ++ t).
    by rewrite (scan_number_app _ _ _ _ En Hstop). }
  destruct (78 =? c)%N eqn:E4.
  { apply N.eqb_eq in E4 as <-. intros ? _. by apply Hp. }
  destruct (73 =? c)%N eqn:E5.
  { apply N.eqb_eq in E5 as <-. intros ? _. by apply Hp. }
  destruct (45 =? c)%N eqn:E6; [|done].
  apply N.eqb_eq in E6 as <-.
  destruct (strip_prefix (u "Infinity") s) as [r'|] eqn:E; [|done].
  intros [= <- <-] _. apply strip_prefix_Some in E as ->.
  rewrite <- app_assoc. rewrite strip_prefix_app. reflexivity.
Qed.

(** ** The decoder: the three recursive scanners *)

Lemma pbind_POk {A B : Type} (m : pres A) (k : A -> str -> pres B) (b : B)
    (r : str) :
  pbind m k = POk b r -> exists a r', m = POk a r' /\ k a r' = POk b r.
Proof. destruct m as [a r'| |]; [|done..]. simpl. eauto. Qed.

Lemma is_ws_not_numchar (c : N) : is_ws c = true -> numchar c = false.
Proof.
  unfold is_ws. intros H.
  repeat (apply orb_true_iff in H as [H|H]);
    apply N.eqb_eq in H; by subst.
Qed.

Lemma skip_ws_stop (s r : str) (c : N) :
  skip_ws s = c :: r -> numchar c = false -> stop s = true.
Proof.
  destruct s as [|d s]; [done|]. simpl.
  destruct (is_ws d) eqn:E.
  - intros _ _. by rewrite (is_ws_not_numchar _ E).
  - by intros [= -> _] ->.
Qed.

Lemma leaves_nil (r : str) : ~ leaves [] r.
Proof. intros (pre & Hne & Heq). by destruct pre. Qed.


Lemma scan_atom_is_container (s r : str) (v : json) :
  scan_atom s = POk v r -> is_container v = false.
Proof.
  intros H%scan_atom_not_container. by destruct v as [[]| |].
Qed.

Section Bodies.
Variables (scan : str -> pres json) (arr : str -> pres (list json))
  (obj : str -> pres (list (str * json))).

Hypothesis scan_leaves : forall s v r, scan s = POk v r -> leaves s r.
Hypothesis arr_leaves : forall s vs r, arr s = POk vs r -> leaves s r.
Hypothesis obj_leaves : forall s ps r, obj s = POk ps r -> leaves s r.

Lemma scan_once_body_leaves (s r : str) (v : json) :
  scan_once_body scan arr obj s = POk v r -> leaves s r.
Proof.
  destruct s as [|c s]; [done|]. unfold scan_once_body.
  destruct (c =? 34)%N.
  { destruct (scanstring s) as [[x r']|] eqn:E; [|done]. intros [= <- <-].
    apply scanstring_leaves, leaves_suffix in E. by apply leaves_cons. }
  pose proof (skip_ws_suffix s) as Hws.
  destruct (c =? 123)%N.
  { destruct (skip_ws s) as [|c1 r1]; [done|].
    apply suffix_cons_l in Hws.
    destruct (c1 =? 125)%N; [intros [= <- <-]; by apply leaves_cons|].
    destruct (c1 =? 34)%N; [|done].
    intros (ps & r2 & Ho%obj_leaves%leaves_suffix & [= <- <-])%pbind_POk.
    apply leaves_cons. by etrans. }
  destruct (c =? 91)%N; [|apply scan_atom_leaves].
  destruct (skip_ws s) as [|c1 r1]; [done|].
  destruct (c1 =? 93)%N.
  { intros [= <- <-]. apply leaves_cons. by apply suffix_cons_l in Hws. }
  intros (v1 & r2 & Hv%scan_leaves%leaves_suffix & H)%pbind_POk.
  apply pbind_POk in H as (vs & r3 & Ha%arr_leaves%leaves_suffix & [= <- <-]).
  apply leaves_cons. etrans; [exact Ha|]. by etrans.
Qed.

Lemma array_rest_body_leaves (s r : str) (vs : list json) :
  array_rest_body scan arr s = POk vs r -> leaves s r.
Proof.
  unfold array_rest_body. pose proof (skip_ws_suffix s) as Hws.
  destruct (skip_ws s) as [|c r0]; [done|].
  assert (leaves s r0) as Hr0.
  { destruct Hws as [k ->]. exists (k ++ [c]). split; [by destruct k|].
    by rewrite <- app_assoc. }
  destruct (c =? 93)%N; [by intros [= <- <-]|].
  destruct (c =? 44)%N; [|done].
  intros (v1 & r2 & Hv%scan_leaves%leaves_suffix & H)%pbind_POk.
  apply pbind_POk in H as (vs' & r3 & Ha%arr_leaves%leaves_suffix & [= <- <-]).
  eapply leaves_trans_l; [exact Hr0|]. etrans; [exact Ha|].
  etrans; [exact Hv|]. apply skip_ws_suffix.
Qed.

Lemma object_items_body_leaves (s r : str) (ps : list (str * json)) :
  object_items_body scan obj s = POk ps r -> leaves s r.
Proof.
  unfold object_items_body.
  destruct (scan_key s) as [[key r0]|] eqn:Ek; [|done].
  apply scan_key_leaves in Ek.
  intros (v1 & r1 & Hv%scan_leaves%leaves_suffix & H)%pbind_POk.
  pose proof (skip_ws_suffix r1) as Hws.
  destruct (skip_ws r1) as [|c r2]; [done|]. apply suffix_cons_l in Hws.
  assert (r2 `suffix_of` r0) as Hr2 by by etrans.
  destruct (c =? 125)%N.
  { injection H as <- <-. by eapply leaves_trans_l. }
  destruct (c =? 44)%N; [|done].
  pose proof (skip_ws_suffix r2) as Hws2.
  destruct (skip_ws r2) as [|q r3]; [done|]. apply suffix_cons_l in Hws2.
  destruct (q =? 34)%N; [|done].
  apply pbind_POk in H as (ps' & r4 & Ho%obj_leaves%leaves_suffix & [= <- <-]).
  eapply leaves_trans_l; [exact Ek|]. etrans; [exact Ho|]. by etrans.
Qed.

(** *** The same result from other scanners one level deeper *)

Section Transfer.
Variables (scan' : str -> pres json) (arr' : str -> pres (list json))
  (obj' : str -> pres (list (str * json))) (s : str).

Hypothesis scan_eq : forall s' v r,
  length s' < length s -> scan s' = POk v r -> scan' s' = POk v r.
Hypothesis arr_eq : forall s' vs r,
  length s' < length s -> arr s' = POk vs r -> arr' s' = POk vs r.
Hypothesis obj_eq : forall s' ps r,
  length s' < length s -> obj s' = POk ps r -> obj' s' = POk ps r.

Lemma scan_once_body_transfer (r : str) (v : json) :
  scan_once_body scan arr obj s = POk v r ->
  scan_once_body scan' arr' obj' s = POk v r.
Proof.
  revert scan_eq arr_eq obj_eq. destruct s as [|c s0]; [done|].
  intros scan_eq arr_eq obj_eq. unfold scan_once_body.
  destruct (c =? 34)%N; [done|].
  pose proof (suffix_length _ _ (skip_ws_suffix s0)) as Hws.
  destruct (c =? 123)%N.
  { destruct (skip_ws s0) as [|c1 r1]; [done|]. simpl in Hws.
    destruct (c1 =? 125)%N; [done|]. destruct (c1 =? 34)%N; [|done].
    intros (ps & r2 & Ho & [= <- <-])%pbind_POk.
    erewrite obj_eq; [|simpl in *; lia|exact Ho]. done. }
  destruct (c =? 91)%N; [|done].
  destruct (skip_ws s0) as [|c1 r1]; [done|]. simpl in Hws.
  destruct (c1 =? 93)%N; [done|].
  intros (v1 & r2 & Hv & H)%pbind_POk.
  apply pbind_POk in H as (vs & r3 & Ha & [= <- <-]).
  erewrite scan_eq; [|simpl in *; lia|exact Hv]. simpl.
  apply scan_leaves, leaves_length in Hv. simpl in Hv.
  erewrite arr_eq; [|simpl in *; lia|exact Ha]. done.
Qed.

Lemma array_rest_body_transfer (r : str) (vs : list json) :
  array_rest_body scan arr s = POk vs r ->
  array_rest_body scan' arr' s = POk vs r.
Proof.
  unfold array_rest_body.
  pose proof (suffix_length _ _ (skip_ws_suffix s)) as Hws.
  destruct (skip_ws s) as [|c r0]; [done|]. simpl in Hws.
  destruct (c =? 93)%N; [done|]. destruct (c =? 44)%N; [|done].
  intros (v1 & r2 & Hv & H)%pbind_POk.
  apply pbind_POk in H as (vs' & r3 & Ha & [= <- <-]).
  pose proof (suffix_length _ _ (skip_ws_suffix r0)) as Hws0.
  erewrite scan_eq; [|simpl in *; lia|exact Hv]. simpl.
  apply scan_leaves, leaves_length in Hv.
  erewrite arr_eq; [|simpl in *; lia|exact Ha]. done.
Qed.

Lemma object_items_body_transfer (r : str) (ps : list (str * json)) :
  object_items_body scan obj s = POk ps r ->
  object_items_body scan' obj' s = POk ps r.
Proof.
  unfold object_items_body.
  destruct (scan_key s) as [[key r0]|] eqn:Ek; [|done].
  apply scan_key_leaves, leaves_length in Ek.
  intros (v1 & r1 & Hv & H)%pbind_POk.
  erewrite scan_eq; [|simpl in *; lia|exact Hv]. simpl.
  apply scan_leaves, leaves_length in Hv.
  pose proof (suffix_length _ _ (skip_ws_suffix r1)) as Hws.
  destruct (skip_ws r1) as [|c r2]; [done|]. simpl in Hws.
  destruct (c =? 125)%N; [done|]. destruct (c =? 44)%N; [|done].
  pose proof (suffix_length _ _ (skip_ws_suffix r2)) as Hws2.
  destruct (skip_ws r2) as [|q r3]; [done|]. simpl in Hws2.
  destruct (q =? 34)%N; [|done].
  apply pbind_POk in H as (ps' & r4 & Ho & [= <- <-]).
  erewrite obj_eq; [|simpl in *; lia|exact Ho]. done.
Qed.
End Transfer.

(** *** The same result with more text after the input *)

Section Extend.
Variable t : str.

Hypothesis scan_app : forall s v r,
  scan s = POk v r -> stop r = true \/ is_container v = true ->
  scan (s ++ t) = POk v (r ++ t).
Hypothesis arr_app : forall s vs r,
  arr s = POk vs r -> arr (s ++ t) = POk vs (r ++ t).
Hypothesis obj_app : forall s ps r,
  obj s = POk ps r -> obj (s ++ t) = POk ps (r ++ t).
Hypothesis arr_stop : forall s vs r, arr s = POk vs r -> stop s = true.

Lemma scan_once_body_app (s r : str) (v : json) :
  scan_once_body scan arr obj s = POk v r ->
  stop r = true \/ is_container v = true ->
  scan_once_body scan arr obj (s ++ t) = POk v (r ++ t).
Proof.
  destruct s as [|c s]; [done|]. unfold scan_once_body. cbn [app].
  destruct (c =? 34)%N.
  { destruct (scanstring s) as [[x r']|] eqn:E; [|done]. intros [= <- <-] _.
    by rewrite (scanstring_app _ _ _ t E). }
  destruct (c =? 123)%N.
  { destruct (skip_ws s) as [|c1 r1] eqn:E; [done|].
    rewrite (skip_ws_app _ _ t _ E).
    destruct (c1 =? 125)%N; [by intros [= <- <-]|].
    destruct (c1 =? 34)%N; [|done].
    intros (ps & r2 & Ho & [= <- <-])%pbind_POk _.
    by rewrite (obj_app _ _ _ Ho). }
  destruct (c =? 91)%N.
  { destruct (skip_ws s) as [|c1 r1] eqn:E; [done|].
    rewrite (skip_ws_app _ _ t _ E).
    destruct (c1 =? 93)%N; [by intros [= <- <-]|].
    intros (v1 & r2 & Hv & H)%pbind_POk _.
    apply pbind_POk in H as (vs & r3 & Ha & [= <- <-]).
    change (c1 :: r1 ++ t) with ((c1 :: r1) ++ t).
    rewrite (scan_app _ _ _ Hv) by (left; by eapply arr_stop). simpl.
    by rewrite (arr_app _ _ _ Ha). }
  intros H Hc. change (c :: s ++ t) with ((c :: s) ++ t).
  apply scan_atom_app; [done|]. destruct Hc as [?|Hc]; [done|].
  apply scan_atom_is_container in H. congruence.
Qed.

Lemma array_rest_body_app (s r : str) (vs : list json) :
  array_rest_body scan arr s = POk vs r ->
  array_rest_body scan arr (s ++ t) = POk vs (r ++ t).
Proof.
  unfold array_rest_body.
  destruct (skip_ws s) as [|c r0] eqn:E; [done|].
  rewrite (skip_ws_app _ _ t _ E).
  destruct (c =? 93)%N; [by intros [= <- <-]|].
  destruct (c =? 44)%N; [|done].
  intros (v1 & r2 & Hv & H)%pbind_POk.
  apply pbind_POk in H as (vs' & r3 & Ha & [= <- <-]).
  destruct (skip_ws r0) as [|d r0'] eqn:E0.
  { by apply scan_leaves, leaves_nil in Hv. }
  rewrite (skip_ws_app _ _ t _ E0).
  change (d :: r0' ++ t) with ((d :: r0') ++ t).
  rewrite (scan_app _ _ _ Hv) by (left; by eapply arr_stop). simpl.
  by rewrite (arr_app _ _ _ Ha).
Qed.

Lemma object_items_body_app (s r : str) (ps : list (str * json)) :
  object_items_body scan obj s = POk ps r ->
  object_items_body scan obj (s ++ t) = POk ps (r ++ t).
Proof.
  unfold object_items_body.
  destruct (scan_key s) as [[key r0]|] eqn:Ek; [|done].
  intros (v1 & r1 & Hv & H)%pbind_POk.
  destruct r0 as [|d r0]; [by apply scan_leaves, leaves_nil in Hv|].
  rewrite (scan_key_app _ _ _ t _ Ek).
  change (d :: r0 ++ t) with ((d :: r0) ++ t).
  destruct (skip_ws r1) as [|c r2] eqn:E1; [done|].
  assert (stop r1 = true) as Hstop.
  { apply (skip_ws_stop _ _ _ E1).
    destruct (c =? 125)%N eqn:E; [apply N.eqb_eq in E; by subst|].
    destruct (c =? 44)%N eqn:E'; [apply N.eqb_eq in E'; by subst|done]. }
  rewrite (scan_app _ _ _ Hv) by by left. simpl.
  rewrite (skip_ws_app _ _ t _ E1).
  destruct (c =? 125)%N; [by injection H as <- <-|].
  destruct (c =? 44)%N; [|done].
  destruct (skip_ws r2) as [|q r3] eqn:E2; [done|].
  rewrite (skip_ws_app _ _ t _ E2).
  destruct (q =? 34)%N; [|done].
  apply pbind_POk in H as (ps' & r4 & Ho & [= <- <-]).
  by rewrite (obj_app _ _ _ Ho).
Qed.

Lemma array_rest_body_stop (s r : str) (vs : list json) :
  array_rest_body scan arr s = POk vs r -> stop s = true.
Proof.
  unfold array_rest_body. destruct (skip_ws s) as [|c r0] eqn:E; [done|].
  intros H. apply (skip_ws_stop _ _ _ E).
  destruct (c =? 93)%N eqn:E1; [apply N.eqb_eq in E1; by subst|].
  destruct (c =? 44)%N eqn:E2; [apply N.eqb_eq in E2; by subst|done].
Qed.
End Extend.
End Bodies.

Lemma scan_once_S (n : nat) (s : str) :
  scan_once (S n) s
  = scan_once_body (scan_once n) (array_rest n) (object_items n) s.
Proof. reflexivity. Qed.

Lemma array_rest_S (n : nat) (s : str) :
  array_rest (S n) s = array_rest_body (scan_once n) (array_rest n) s.
Proof. reflexivity. Qed.

Lemma object_items_S (n : nat) (s : str) :
  object_items (S n) s = object_items_body (scan_once n) (object_items n) s.
Proof. reflexivity. Qed.

(** Each scanner reads at least one character. *)
Lemma scanners_leaves (n : nat) :
  (forall s v r, scan_once n s = POk v r -> leaves s r)
  /\ (forall s vs r, array_rest n s = POk vs r -> leaves s r)
  /\ (forall s ps r, object_items n s = POk ps r -> leaves s r).
Proof.
  induction n as [|n (IHs & IHa & IHo)]; [done|].
  split; [|split]; intros s v r.
  - rewrite scan_once_S. by apply scan_once_body_leaves.
  - rewrite array_rest_S. by apply array_rest_body_leaves.
  - rewrite object_items_S. by apply object_items_body_leaves.
Qed.

(** A result does not depend on the budget: any budget above the length of
    the input gives it. *)
Lemma scanners_transfer (n : nat) : forall m,
  (forall s v r, length s < m ->
     scan_once n s = POk v r -> scan_once m s = POk v r)
  /\ (forall s vs r, length s < m ->
        array_rest n s = POk vs r -> array_rest m s = POk vs r)
  /\ (forall s ps r, length s < m ->
        object_items n s = POk ps r -> object_items m s = POk ps r).
Proof.
  induction n as [|n IH]; intros m; [done|].
  destruct (scanners_leaves n) as (Ls & La & Lo).
  destruct m as [|m]; [split; [|split]; intros; lia|].
  destruct (IH m) as (IHs & IHa & IHo).
  split; [|split]; intros s v r Hlen.
  - rewrite !scan_once_S.
    apply scan_once_body_transfer; [done| | |]; intros; [apply IHs|apply IHa|apply IHo];
      try done; lia.
  - rewrite !array_rest_S.
    apply array_rest_body_transfer; [done| |]; intros; [apply IHs|apply IHa];
      try done; lia.
  - rewrite !object_items_S.
    apply object_items_body_transfer; [done| |]; intros; [apply IHs|apply IHo];
      try done; lia.
Qed.

Lemma scan_once_adequate (n : nat) (s r : str) (v : json) :
  scan_once n s = POk v r -> scan_once (S (length s)) s = POk v r.
Proof. apply scanners_transfer. lia. Qed.

Lemma array_rest_stop (n : nat) (s : str) (vs : list json) (r : str) :
  array_rest n s = POk vs r -> stop s = true.
Proof. destruct n; [done|]. rewrite array_rest_S. apply array_rest_body_stop. Qed.

(** A result is not changed by text added after the input, when the value
    ends with its own closing character or is followed by a character that
    cannot continue a number. *)
Lemma scanners_app (t : str) (n : nat) :
  (forall s v r, scan_once n s = POk v r ->
     stop r = true \/ is_container v = true ->
     scan_once n (s ++ t) = POk v (r ++ t))
  /\ (forall s vs r, array_rest n s = POk vs r ->
        array_rest n (s ++ t) = POk vs (r ++ t))
  /\ (forall s ps r, object_items n s = POk ps r ->
        object_items n (s ++ t) = POk ps (r ++ t)).
Proof.
  induction n as [|n (IHs & IHa & IHo)]; [done|].
  destruct (scanners_leaves n) as (Ls & La & Lo).
  split; [|split]; intros s v r.
  - rewrite !scan_once_S.
    apply (scan_once_body_app _ _ _ t IHs IHa IHo (array_rest_stop n)).
  - rewrite !array_rest_S.
    apply (array_rest_body_app _ _ Ls t IHs IHa (array_rest_stop n)).
  - rewrite !object_items_S.
    apply (object_items_body_app _ _ Ls t IHs IHo).
Qed.

Lemma object_items_brace (n : nat) : forall (s r : str) (ps : list (str * json)),
  object_items n s = POk ps r -> (125%N :: r) `suffix_of` s.
Proof.
  induction n as [|n IH]; intros s r ps; [done|].
  destruct (scanners_leaves n) as (Ls & _ & _).
  rewrite object_items_S. unfold object_items_body.
  destruct (scan_key s) as [[key r0]|] eqn:Ek; [|done].
  apply scan_key_leaves, leaves_suffix in Ek.
  intros (v1 & r1 & Hv%Ls%leaves_suffix & H)%pbind_POk.
  pose proof (skip_ws_suffix r1) as Hws.
  destruct (skip_ws r1) as [|c r2]; [done|].
  assert ((c :: r2) `suffix_of` s) as Hc by (etrans; [done|]; by etrans).
  destruct (c =? 125)%N eqn:E.
  { injection H as <- <-. by apply N.eqb_eq in E as ->. }
  destruct (c =? 44)%N; [|done].
  pose proof (skip_ws_suffix r2) as Hws2.
  destruct (skip_ws r2) as [|q r3]; [done|].
  destruct (q =? 34)%N; [|done].
  apply pbind_POk in H as (ps' & r4 & Ho%IH & [= <- <-]).
  etrans; [exact Ho|]. apply suffix_cons_l in Hws2, Hc. by etrans.
Qed.

(** An object is read from its opening brace to its closing brace. *)
Lemma scan_once_dict (n : nat) (s r : str) (kvs : list (str * json)) :
  scan_once n s = POk (JDict kvs) r ->
  (exists s', s = 123%N :: s') /\ (125%N :: r) `suffix_of` s.
Proof.
  destruct n as [|n]; [done|]. rewrite scan_once_S.
  destruct s as [|c s]; [done|]. unfold scan_once_body.
  destruct (c =? 34)%N; [by destruct (scanstring s) as [[? ?]|]|].
  destruct (c =? 123)%N eqn:E.
  { apply N.eqb_eq in E as ->. intros H. split; [by eauto|].
    apply suffix_cons_r.
    pose proof (skip_ws_suffix s) as Hws.
    destruct (skip_ws s) as [|c1 r1]; [done|].
    destruct (c1 =? 125)%N eqn:E1.
    { injection H as <- <-. by apply N.eqb_eq in E1 as ->. }
    destruct (c1 =? 34)%N; [|done].
    apply pbind_POk in H as (ps & r2 & Ho%object_items_brace & [= <- <-]).
    etrans; [exact Ho|]. by apply suffix_cons_l in Hws. }
  destruct (c =? 91)%N.
  { destruct (skip_ws s) as [|c1 r1]; [done|].
    destruct (c1 =? 93)%N; [done|].
    intros (? & ? & _ & (? & ? & _ & [=])%pbind_POk)%pbind_POk. }
  by intros ?%scan_atom_is_container.
Qed.

(** ** Record lines *)

Lemma is_ws_is_space (c : N) : is_ws c = true -> is_space c = true.
Proof.
  unfold is_ws. intros H.
  repeat (apply orb_true_iff in H as [H|H]); apply N.eqb_eq in H; by subst.
Qed.

Lemma json_loads_skip_ws (w l : str) :
  Forall (fun c => is_ws c = true) w -> json_loads (w ++ l) = json_loads l.
Proof. intros Hw. unfold json_loads. by rewrite (skip_ws_all _ _ Hw). Qed.

(** What decoding a record line amounts to: leading whitespace, the object
    from brace to brace, trailing whitespace. *)
Lemma record_line_inv (l : str) (v : json) :
  record_line l v ->
  exists w b tw,
    l = w ++ 123%N :: b
    /\ Forall (fun c => is_ws c = true) w
    /\ Forall (fun c => is_ws c = true) tw
    /\ (125%N :: tw) `suffix_of` (123%N :: b)
    /\ forall X m, length (123%N :: b ++ X) < m ->
         scan_once m (123%N :: b ++ X) = POk v (tw ++ X).
Proof.
  intros (Hnl & (kvs & ->) & Hload). unfold json_loads in Hload.
  destruct (skip_ws_split l) as (w & Hl & Hw).
  destruct (scan_once _ (skip_ws l)) as [v r| |] eqn:Hscan; [|done..].
  destruct (skip_ws r) eqn:Hr; [|done]. injection Hload as ->.
  destruct (scan_once_dict _ _ _ _ Hscan) as ((b & Hb) & Hsuf).
  exists w, b, r. rewrite <- Hb. split; [done|]. split; [done|].
  split; [by apply skip_ws_nil|]. split; [done|]. intros X m Hm.
  apply (scanners_transfer (S (length (skip_ws l)))); [simpl in *; lia|].
  change (123%N :: b ++ X) with ((123%N :: b) ++ X). rewrite <- Hb.
  apply scanners_app; [done | by right].
Qed.

Lemma record_line_strip (w l : str) (v : json) :
  Forall (fun c => is_ws c = true) w ->
  record_line (w ++ l) v -> record_line l v.
Proof.
  intros Hw (Hnl & Hv & Hload). split; [|split; [done|]].
  - intros Hin. apply Hnl, elem_of_app. by right.
  - by rewrite <- (json_loads_skip_ws w l Hw).
Qed.

Lemma match_marker_not_star (c : N) (s : str) :
  c ≠ 42%N -> match_marker (c :: s) = None.
Proof.
  intros Hc. unfold match_marker. rewrite stars_eq. simpl.
  destruct (42 =? c)%N eqn:E; [|done]. apply N.eqb_eq in E. by subst.
Qed.

Lemma record_line_no_match (l X : str) (v : json) :
  record_line l v -> match_marker (l ++ X) = None.
Proof.
  intros (w & b & tw & -> & Hw & _)%record_line_inv.
  destruct Hw as [|c w Hc _]; simpl.
  - by apply match_marker_not_star.
  - apply match_marker_not_star. intros ->. done.
Qed.

Lemma record_line_rstrip_ready (l : str) (v : json) :
  record_line l v -> exists l0 x, l = l0 ++ [x] /\ x ≠ 44%N.
Proof.
  intros (w & b & tw & -> & _ & Htw & [k Hk] & _)%record_line_inv.
  rewrite Hk. destruct (decide (tw = [])) as [->|Hne].
  - exists (w ++ k), 125%N. by rewrite <- app_assoc.
  - destruct (exists_last Hne) as (tw0 & x & ->).
    exists (w ++ k ++ 125%N :: tw0), x. split.
    + by rewrite <- !app_assoc.
    + rewrite Forall_app, Forall_singleton in Htw. destruct Htw as [_ Hx].
      by intros ->.
Qed.

Lemma record_line_nonempty (l : str) (v : json) : record_line l v -> l ≠ [].
Proof. intros (w & b & tw & -> & _)%record_line_inv. by destruct w. Qed.

(** ** The substitution on 1PIF text *)

Lemma re_sub_markers_line (l rest : str) : forall (n : nat) (b : bool),
  10%N ∉ l ->
  b = false \/ match_marker (l ++ 10%N :: rest) = None ->
  length (l ++ 10%N :: rest) <= n ->
  re_sub_markers n b (l ++ 10%N :: rest)
  = l ++ 10%N :: re_sub_markers (length rest) true rest.
Proof.
  induction l as [|c l IH]; intros n b Hnl Hb Hn.
  - simpl. rewrite re_sub_markers_keep; [done|done|].
    right. by apply match_marker_not_star.
  - apply not_elem_of_cons in Hnl as [Hc Hnl]. cbn [app].
    rewrite re_sub_markers_keep; [|done|done]. f_equal.
    assert ((c =? 10)%N = false) as -> by (apply N.eqb_neq; congruence).
    apply IH; [done | by left | done].
Qed.

Lemma re_sub_markers_no_line (l : str) : forall (n : nat) (b : bool),
  10%N ∉ l ->
  b = false \/ match_marker l = None ->
  length l <= n ->
  re_sub_markers n b l = l.
Proof.
  induction l as [|c l IH]; intros n b Hnl Hb Hn; [by destruct n|].
  apply not_elem_of_cons in Hnl as [Hc Hnl].
  rewrite re_sub_markers_keep; [|done|done]. f_equal.
  assert ((c =? 10)%N = false) as -> by (apply N.eqb_neq; congruence).
  apply IH; [done | by left | done].
Qed.

Lemma take_space_record (l X : str) (v : json) :
  record_line l v ->
  exists w l', l = w ++ l' /\ Forall (fun c => is_ws c = true) w
    /\ record_line l' v
    /\ take_space (l ++ X) = (w, l' ++ X).
Proof.
  intros Hl. pose proof Hl as (w & b & tw & -> & Hw & _)%record_line_inv.
  exists w, (123%N :: b). split; [done|]. split; [done|].
  split; [by eapply record_line_strip|].
  rewrite <- app_assoc, take_space_app.
  - simpl. by rewrite app_nil_r.
  - eapply Forall_impl; [exact Hw|]. apply is_ws_is_space.
Qed.

Lemma ends_with_newline_app (w w' : str) :
  w' ≠ [] -> ends_with_newline (w ++ w') = ends_with_newline w'.
Proof.
  intros Hne. unfold ends_with_newline.
  destruct (exists_last Hne) as (w0 & x & ->).
  by rewrite app_assoc, !last_snoc.
Qed.

(** The substitution deletes the marker lines and keeps the records; the
    second part is the state of the scan after a marker, which has taken
    the spaces from the head of the text along. *)
Lemma legacy_cleaned (s : str) (vs : list json) :
  legacy s vs ->
  cleaned (re_sub_markers (length s) true s) vs
  /\ forall b : bool,
       cleaned
         (re_sub_markers (length (take_space s).2)
            (if decide ((take_space s).1 = []) then true else b)
            (take_space s).2) vs.
Proof.
  induction 1 as [|m w1 rest vs Hm Hw1 Hnl Hrest [IH1 IH2]
                  |l rest v vs Hl Hrest [IH1 IH2]|l v Hl].
  - split; [constructor|]. intros b. simpl. constructor.
  - assert (cleaned (re_sub_markers (length (m ++ w1 ++ rest)) true
                       (m ++ w1 ++ rest)) vs) as H1.
    { rewrite (re_sub_markers_match _ _ (w1 ++ (take_space rest).1)
                 (take_space rest).2); [|done|].
      - specialize (IH2 (ends_with_newline (w1 ++ (take_space rest).1))).
        destruct (decide ((take_space rest).1 = [])) as [Heq|Hne]; [|done].
        rewrite Heq, app_nil_r.
        destruct Hnl as [->| ->]; [done | exact IH1].
      - apply match_marker_block; [done..|].
        destruct Hnl as [Hnl|?]; [left | by right].
        by apply ends_with_newline_elem. }
    split; [done|]. intros b.
    assert (take_space (m ++ w1 ++ rest) = ([], m ++ w1 ++ rest)) as ->.
    { destruct Hm as (t & -> & _). by rewrite <- !app_assoc. }
    done.
  - split.
    + rewrite re_sub_markers_line; [|by apply Hl| |done].
      * by constructor.
      * right. by eapply record_line_no_match.
    + intros b.
      destruct (take_space_record l (10%N :: rest) v Hl)
        as (w0 & l' & -> & Hw0 & Hl' & ->). cbn [fst snd].
      rewrite re_sub_markers_line; [|by apply Hl'| |done].
      * by constructor.
      * right. by eapply record_line_no_match.
  - split.
    + rewrite re_sub_markers_no_line; [|by apply Hl| |done].
      * by constructor.
      * right. rewrite <- (app_nil_r l). by eapply record_line_no_match.
    + intros b.
      destruct (take_space_record l [] v Hl)
        as (w0 & l' & Heq & Hw0 & Hl' & Hts).
      rewrite app_nil_r in Hts. rewrite Hts. cbn [fst snd].
      rewrite app_nil_r.
      rewrite re_sub_markers_no_line; [|by apply Hl'| |done].
      * by constructor.
      * right. rewrite <- (app_nil_r l'). by eapply record_line_no_match.
Qed.

(** ** Lines, commas and brackets *)

Lemma split_on_nonempty (sep : N) (s : str) : split_on sep s ≠ [].
Proof.
  destruct s as [|c s]; simpl; [done|].
  destruct (c =? sep)%N; [done|]. by destruct (split_on sep s).
Qed.

Lemma split_on_no_sep (sep : N) (l : str) : sep ∉ l -> split_on sep l = [l].
Proof.
  induction l as [|c l IH]; [done|]. intros [Hc Hl]%not_elem_of_cons. simpl.
  assert ((c =? sep)%N = false) as -> by (apply N.eqb_neq; congruence).
  by rewrite (IH Hl).
Qed.

Lemma split_on_line (sep : N) (l rest : str) :
  sep ∉ l -> split_on sep (l ++ sep :: rest) = l :: split_on sep rest.
Proof.
  induction l as [|c l IH]; simpl.
  - intros _. by rewrite N.eqb_refl.
  - intros [Hc Hl]%not_elem_of_cons.
    assert ((c =? sep)%N = false) as -> by (apply N.eqb_neq; congruence).
    by rewrite (IH Hl).
Qed.

Lemma join_cons (sep x : str) (parts : list str) :
  parts ≠ [] -> join sep (x :: parts) = x ++ sep ++ join sep parts.
Proof. by destruct parts. Qed.

Lemma rstrip_snoc_ne (c x : N) (s : str) : x ≠ c -> rstrip c (s ++ [x]) = s ++ [x].
Proof.
  intros Hx. induction s as [|d s IH]; simpl.
  - by assert ((x =? c)%N = false) as -> by (by apply N.eqb_neq).
  - rewrite IH. by destruct s.
Qed.

Lemma rstrip_app_nil (c : N) (a b : str) :
  rstrip c b = [] -> rstrip c (a ++ b) = rstrip c a.
Proof.
  intros Hb. induction a as [|d a IH]; simpl; [done|]. by rewrite IH.
Qed.

Lemma rstrip_app_ne (c : N) (a b : str) :
  rstrip c b ≠ [] -> rstrip c (a ++ b) = a ++ rstrip c b.
Proof.
  intros Hb. induction a as [|d a IH]; simpl; [done|]. rewrite IH.
  destruct a; simpl; [|done]. by destruct (rstrip c b).
Qed.

(** The line splitting, comma joining and comma stripping of [pif2json] on
    text without markers: the record lines joined by commas. *)
Lemma cleaned_joined (c : str) (vs : list json) :
  cleaned c vs ->
  exists ls,
    Forall2 record_line ls vs
    /\ rstrip 44 (join [44%N] (split_on 10 c)) = join [44%N] ls.
Proof.
  induction 1 as [|l rest v vs Hl Hrest (ls & Hls & IH)|l v Hl].
  - by exists [].
  - exists (l :: ls). split; [by constructor|].
    rewrite split_on_line by apply Hl.
    rewrite join_cons by apply split_on_nonempty.
    destruct (record_line_rstrip_ready _ _ Hl) as (l0 & x & -> & Hx).
    destruct Hls as [|l' v' ls vs Hl' Hls].
    + rewrite rstrip_app_nil; [by apply rstrip_snoc_ne|].
      by rewrite (rstrip_app_nil _ [44%N]).
    + assert (join [44%N] (l' :: ls) ≠ []) as Hne.
      { apply record_line_nonempty in Hl'. destruct l', ls; done. }
      rewrite <- IH in Hne. rewrite rstrip_app_ne.
      * rewrite rstrip_app_ne by done. rewrite IH.
        by rewrite (join_cons _ (l0 ++ [x])).
      * rewrite rstrip_app_ne by done. done.
  - exists [l]. split; [by constructor; [|constructor]|].
    rewrite split_on_no_sep by apply Hl. simpl.
    destruct (record_line_rstrip_ready _ _ Hl) as (l0 & x & -> & Hx).
    by rewrite rstrip_snoc_ne.
Qed.


Lemma join_more_lines (l : str) (ls : list str) :
  join [44%N] (l :: ls) ++ [93%N] = l ++ more_lines ls.
Proof.
  revert l. induction ls as [|l' ls IH]; intros l; [done|].
  rewrite join_cons by done. unfold more_lines. simpl.
  rewrite <- !app_assoc. f_equal. simpl. f_equal. apply IH.
Qed.

Lemma record_line_scan (l : str) (v : json) :
  record_line l v ->
  exists w b tw,
    l = w ++ 123%N :: b
    /\ Forall (fun c => is_ws c = true) w
    /\ Forall (fun c => is_ws c = true) tw
    /\ length tw <= length b
    /\ forall X m, S (length b + length X) < m ->
         scan_once m (123%N :: b ++ X) = POk v (tw ++ X).
Proof.
  intros (w & b & tw & Heq & Hw & Htw & Hsuf & Hscan)%record_line_inv.
  exists w, b, tw. split; [done|]. split; [done|]. split; [done|]. split.
  - apply suffix_length in Hsuf. simpl in Hsuf. lia.
  - intros X m Hm. apply Hscan. simpl. rewrite length_app. lia.
Qed.

Lemma more_lines_cons (w b : str) (ls : list str) :
  more_lines ((w ++ 123%N :: b) :: ls)
  = 44%N :: w ++ 123%N :: b ++ more_lines ls.
Proof. unfold more_lines. simpl. by rewrite <- !app_assoc. Qed.

Lemma array_rest_more_lines (ls : list str) (vs : list json) :
  Forall2 record_line ls vs ->
  forall tw m,
    Forall (fun c => is_ws c = true) tw ->
    length (tw ++ more_lines ls) < m ->
    array_rest m (tw ++ more_lines ls) = POk vs [].
Proof.
  induction 1 as [|l v ls vs Hl Hls IH]; intros tw m Htw Hm.
  - destruct m as [|m]; [lia|]. rewrite array_rest_S. unfold array_rest_body.
    by rewrite skip_ws_all.
  - destruct m as [|m]; [lia|]. rewrite array_rest_S. unfold array_rest_body.
    rewrite skip_ws_all by done.
    destruct (record_line_scan _ _ Hl)
      as (w & b & tw' & -> & Hw & Htw' & Hlen & Hscan).
    rewrite more_lines_cons in *.
    change (skip_ws (44%N :: ?x)) with (44%N :: x).
    change (44 =? 93)%N with false. change (44 =? 44)%N with true. cbv iota.
    rewrite skip_ws_all by done.
    change (skip_ws (123%N :: ?x)) with (123%N :: x).
    rewrite length_app in Hm. cbn [length] in Hm.
    rewrite length_app in Hm. cbn [length] in Hm.
    rewrite length_app in Hm.
    rewrite Hscan by lia. cbn [pbind].
    rewrite IH; [done|done|]. rewrite length_app. lia.
Qed.

(** C2 (amended). On well-formed 1PIF text, [pif2json] returns the list of
    the records of its lines: as many elements as record lines, each the
    object that [json.loads] returns for its line alone. *)
Theorem pif2json_legacy (text : str) (vs : list json) :
  legacy text vs -> pif2json_text text = Ok (JList vs).
Proof.
  intros [Hc _]%legacy_cleaned. unfold pif2json_text.
  destruct (cleaned_joined _ _ Hc) as (ls & Hls & ->).
  destruct Hls as [|l v ls vs Hl Hls]; [reflexivity|].
  cbn [app]. rewrite join_more_lines.
  destruct (record_line_scan _ _ Hl)
    as (w & b & tw & -> & Hw & Htw & Hlen & Hscan).
  unfold json_loads. change (skip_ws (91%N :: ?x)) with (91%N :: x).
  rewrite scan_once_S. unfold scan_once_body.
  change (91 =? 34)%N with false. change (91 =? 123)%N with false.
  change (91 =? 91)%N with true. cbv iota.
  rewrite <- app_assoc, skip_ws_all by done. cbn [app].
  change (skip_ws (123%N :: ?x)) with (123%N :: x).
  change (123 =? 93)%N with false. cbv iota.
  cbn [length]. rewrite !length_app. cbn [length]. rewrite length_app.
  rewrite Hscan by lia. cbn [pbind].
  rewrite (array_rest_more_lines _ _ Hls); [done|done|].
  rewrite length_app. lia.
Qed.

Lemma pif2json_legacy_witness :
  pif2json_text
    (u "***X***" ++ [10%N]
     ++ (js "{'a':1}" ++ 10%N
         :: (js "{'b':2}" ++ 10%N :: (u "***Y***" ++ [10%N] ++ []))))
  = Ok (JList [JDict [(u "a", JInt 1)]; JDict [(u "b", JInt 2)]]).
Proof.
  apply pif2json_legacy.
  apply legacy_marker.
  - exists (u "X"). split; [reflexivity|].
    intros [=]%list_elem_of_singleton.
  - split; [done|]. by repeat constructor.
  - by left.
  - apply legacy_record.
    + split; [|split; [by eexists | by vm_compute]].
      apply (bool_decide_unpack _). by vm_compute.
    + apply legacy_record.
      * split; [|split; [by eexists | by vm_compute]].
        apply (bool_decide_unpack _). by vm_compute.
      * apply legacy_marker.
        -- exists (u "Y"). split; [reflexivity|].
           intros [=]%list_elem_of_singleton.
        -- split; [done|]. by repeat constructor.
        -- by right.
        -- constructor.
Defined.

(** C2 (as stated, refuted). On the example text of the specification the
    line [A] is not an object literal and the last marker is followed by
    nothing, so it stays in the text: [json.loads] raises. Without the line
    [A] the outcome is the same. *)
Lemma pif2json_specification_example :
  pif2json_text
    (u "***X***" ++ [10%N] ++ u "A" ++ [10%N] ++ js "{'a':1}" ++ [10%N]
     ++ js "{'b':2}" ++ [10%N] ++ u "***Y***")
  = Raise JSONDecodeError
  /\ pif2json_text
       (u "***X***" ++ [10%N] ++ js "{'a':1}" ++ [10%N]
        ++ js "{'b':2}" ++ [10%N] ++ u "***Y***")
     = Raise JSONDecodeError.
Proof. split; vm_compute; reflexivity. Qed.

(** ** The structural matcher: further properties *)

Lemma all_ok_Forall {A : Type} (test : A -> result bool) (l : list A) :
  all_ok test l = Ok true <-> Forall (fun x => test x = Ok true) l.
Proof.
  induction l as [|x l IH]; simpl.
  - split; [constructor | done].
  - rewrite Forall_cons. destruct (test x) as [[]|e].
    + rewrite IH. split; [by split | by intros [_ ?]].
    + split; [done | by intros [? _]].
    + split; [done | by intros [? _]].
Qed.

Lemma all_ok_raise {A : Type} (test : A -> result bool) (l : list A) (e : exn) :
  all_ok test l = Raise e -> exists x, x ∈ l /\ test x = Raise e.
Proof.
  induction l as [|x l IH]; simpl; [done|].
  destruct (test x) as [[]|e'] eqn:E.
  - intros (y & ? & ?)%IH. exists y. split; [by apply list_elem_of_further | done].
  - done.
  - intros [= ->]. exists x. split; [apply list_elem_of_here | done].
Qed.

(** X1. The only exception the matcher raises is the [IndexError] of
    [header[0]], and only on a header that holds an empty list. *)
Theorem ensureheader_raise_inv (hdr : header) (data : json) (e : exn) :
  ensureheader data hdr = Raise e ->
  e = IndexError /\ templates_nonempty hdr = false.
Proof.
  revert data.
  induction hdr as [t|a|hs IH|hs IH] using header_ind; intros data.
  - simpl. by destruct (_ && _).
  - by destruct data.
  - destruct data as [a|items|kvs]; simpl; try done.
    intros (x & _ & Hx)%all_ok_raise.
    destruct hs as [|h0 hs]; [by injection Hx as <-|].
    apply Forall_cons in IH as [IH0 _].
    destruct (IH0 _ Hx) as [-> Hh0]. split; [done|].
    simpl. by rewrite Hh0.
  - destruct data as [a|items|kvs]; simpl; try done.
    intros ([k h] & Hin & Hx)%all_ok_raise. simpl in Hx.
    destruct (dict_get str_eqb kvs k) as [d|]; [|done].
    rewrite Forall_forall in IH. destruct (IH _ Hin _ Hx) as [-> Hh].
    split; [done|]. apply not_true_is_false. intros Hall.
    rewrite forallb_forall in Hall.
    apply list_elem_of_In in Hin. specialize (Hall _ Hin). simpl in *. congruence.
Qed.

Lemma ensureheader_raise_inv_witness :
  ensureheader (JDict [(u "a", JList [JInt 1])]) (HDict [(u "a", HList [])])
  = Raise IndexError
  /\ IndexError = IndexError
  /\ templates_nonempty (HDict [(u "a", HList [])]) = false.
Proof.
  split; [reflexivity|].
  apply (ensureheader_raise_inv (HDict [(u "a", HList [])])
           (JDict [(u "a", JList [JInt 1])])).
  reflexivity.
Defined.

(** X2. A list document matches a list header exactly when each of its
    items matches the first element of the header; the other elements of
    the header are never read. *)
Theorem ensureheader_list_items (items : list json) (h : header)
    (hs : list header) :
  ensureheader (JList items) (HList (h :: hs)) = Ok true
  <-> Forall (fun item => ensureheader item h = Ok true) items.
Proof.
  cbn [ensureheader]. induction items as [|item items IH]; cbn [all_ok].
  - split; [constructor | done].
  - rewrite Forall_cons. destruct (ensureheader item h) as [[]|e].
    + rewrite IH. split; [by split | by intros [_ ?]].
    + split; [done | by intros [? _]].
    + split; [done | by intros [? _]].
Qed.

(** X3. A dict document matches a dict header exactly when every key of
    the header is bound in the document to a value that matches the header
    under that key. *)
Theorem ensureheader_dict_keys (kvs : list (str * json))
    (hs : list (str * header)) :
  ensureheader (JDict kvs) (HDict hs) = Ok true
  <-> Forall (fun kh => exists d, dict_get str_eqb kvs kh.1 = Some d
                                  /\ ensureheader d kh.2 = Ok true) hs.
Proof.
  simpl. rewrite all_ok_Forall. apply Forall_iff. intros [k h]. simpl.
  destruct (dict_get str_eqb kvs k) as [d|].
  - split; [eauto | by intros (? & [= <-] & ?)].
  - split; [done | by intros (? & ? & _)].
Qed.

(** X4. Whether a document is accepted does not depend on the order in
    which the header lists its keys. *)
Theorem ensureheader_header_order (data : json) (hs hs' : list (str * header)) :
  hs ≡ₚ hs' ->
  ensureheader data (HDict hs) = Ok true
  <-> ensureheader data (HDict hs') = Ok true.
Proof.
  intros Hp. destruct data as [a|items|kvs]; [done..|].
  simpl. rewrite !all_ok_Forall. by rewrite Hp.
Qed.

Lemma ensureheader_header_order_witness :
  [(u "a", HType TStr); (u "b", HType TInt)]
  ≡ₚ [(u "b", HType TInt); (u "a", HType TStr)]
  /\ (ensureheader (JDict [(u "a", JStr (u "x")); (u "b", JInt 1)])
        (HDict [(u "a", HType TStr); (u "b", HType TInt)]) = Ok true
      <-> ensureheader (JDict [(u "a", JStr (u "x")); (u "b", JInt 1)])
            (HDict [(u "b", HType TInt); (u "a", HType TStr)]) = Ok true).
Proof.
  assert ([(u "a", HType TStr); (u "b", HType TInt)]
          ≡ₚ [(u "b", HType TInt); (u "a", HType TStr)]) as Hp
    by apply perm_swap.
  split; [exact Hp|].
  exact (ensureheader_header_order _ _ _ Hp).
Defined.

(** ** Detection: further properties *)

Lemma is_ws_bracket (r : str) : skip_ws (91%N :: r) = 91%N :: r.
Proof. reflexivity. Qed.

(** What [json.loads] decodes from text that opens with a bracket is a
    list. *)
Lemma json_loads_bracket (r : str) (v : json) :
  json_loads (91%N :: r) = Ok v -> exists l, v = JList l.
Proof.
  unfold json_loads. rewrite is_ws_bracket.
  cbn [scan_once]. unfold scan_once_body.
  change (91 =? 34)%N with false. change (91 =? 123)%N with false.
  change (91 =? 91)%N with true. cbv iota.
  destruct (skip_ws r) as [|c1 r1]; [done|].
  destruct (c1 =? 93)%N.
  - destruct (skip_ws r1); [|done]. intros [= <-]. eauto.
  - destruct (scan_once _ _) as [x r2| |]; simpl; try done.
    destruct (array_rest_body _ _ r2) as [xs r3| |]; simpl; try done.
    destruct (skip_ws r3); [|done]. intros [= <-]. eauto.
Qed.

Lemma json_loads_raise (s : str) (e : exn) :
  json_loads s = Raise e -> e = JSONDecodeError.
Proof.
  unfold json_loads. destruct (scan_once _ _) as [v r| |]; try by intros [= <-].
  destruct (skip_ws r); [done | by intros [= <-]].
Qed.

Lemma pif2json_text_list (data : str) (v : json) :
  pif2json_text data = Ok v -> exists l, v = JList l.
Proof. apply json_loads_bracket. Qed.

(** X5. What [PIF.is_format] keeps in [self.jsons] when it returns [True]
    is a list, whatever the file holds: the loop of [parse] over it cannot
    fail on the document itself. *)
Theorem is_format_true_list (self : PIF) :
  (is_format self).1 = Ok true ->
  exists l, jsons (is_format self).2 = JList l.
Proof.
  unfold is_format, pif2json.
  destruct (file_read (file self)) as [[data|e] f']; simpl.
  - destruct (pif2json_text data) as [j|e] eqn:E; simpl.
    + intros _. by apply pif2json_text_list in E.
    + by destruct e.
  - by destruct e.
Qed.

Lemma is_format_true_list_witness :
  exists l,
    jsons (is_format (MkPIF false true (open_text (js "{'a':1}")) JNull [])).2
    = JList l.
Proof.
  refine (is_format_true_list
            (MkPIF false true (open_text (js "{'a':1}")) JNull []) _).
  vm_compute. reflexivity.
Defined.

(** X6. Detection cannot be repeated on the same handle: once a first
    [PIF.is_format] has read a decodable file, a second call finds the
    handle at its end, decodes the empty text and returns [True] with an
    empty record list, whatever the first call returned. *)
Theorem is_format_twice (self : PIF) (t : str) :
  f_text (file self) = Some t ->
  (is_format (is_format self).2).1 = Ok true
  /\ jsons (is_format (is_format self).2).2 = JList [].
Proof.
  intros Ht. unfold is_format at 2 4. unfold pif2json, file_read. rewrite Ht.
  simpl. 
  assert (forall s1 : PIF, file s1 = Handle (Some t) (length t) ->
            (is_format s1).1 = Ok true /\ jsons (is_format s1).2 = JList [])
    as Hsecond.
  { intros s1 Hf. unfold is_format, pif2json, file_read. rewrite Hf. simpl.
    rewrite drop_all. by vm_compute. }
  destruct (pif2json_text _) as [j|e]; apply Hsecond; reflexivity.
Qed.

Lemma is_format_twice_witness :
  f_text (file (MkPIF false true (open_text (js "{'a':1}")) JNull []))
  = Some (js "{'a':1}")
  /\ (is_format
        (is_format (MkPIF false true (open_text (js "{'a':1}")) JNull [])).2).1
     = Ok true
  /\ jsons
       (is_format
          (is_format (MkPIF false true (open_text (js "{'a':1}")) JNull [])).2).2
     = JList [].
Proof.
  split; [reflexivity|].
  exact (is_format_twice (MkPIF false true (open_text (js "{'a':1}")) JNull [])
           (js "{'a':1}") eq_refl).
Defined.

(** X7. [JSON.is_format] of the base class cannot be repeated either: a
    second call on the same handle reads the empty text, which is no JSON
    document, and returns [False]; [self.jsons] keeps what the first call
    left. *)
Theorem JSON_is_format_twice (self : PIF) (t : str) :
  f_text (file self) = Some t ->
  (JSON_is_format (JSON_is_format self).2).1 = Ok false
  /\ jsons (JSON_is_format (JSON_is_format self).2).2
     = jsons (JSON_is_format self).2.
Proof.
  intros Ht.
  assert (forall s1 : PIF, file s1 = Handle (Some t) (length t) ->
            (JSON_is_format s1).1 = Ok false
            /\ jsons (JSON_is_format s1).2 = jsons s1) as Hsecond.
  { intros s1 Hf. unfold JSON_is_format, file_read. rewrite Hf. simpl.
    rewrite drop_all. by vm_compute. }
  apply Hsecond. unfold JSON_is_format, file_read. rewrite Ht. simpl.
  by destruct (json_loads _).
Qed.

Lemma JSON_is_format_twice_witness :
  f_text (file (MkPIF false true (open_text (js "{'a':1}")) JNull []))
  = Some (js "{'a':1}")
  /\ (JSON_is_format
        (JSON_is_format
           (MkPIF false true (open_text (js "{'a':1}")) JNull [])).2).1
     = Ok false
  /\ jsons
       (JSON_is_format
          (JSON_is_format
             (MkPIF false true (open_text (js "{'a':1}")) JNull [])).2).2
     = jsons
         (JSON_is_format
            (MkPIF false true (open_text (js "{'a':1}")) JNull [])).2.
Proof.
  split; [reflexivity|].
  exact (JSON_is_format_twice
           (MkPIF false true (open_text (js "{'a':1}")) JNull [])
           (js "{'a':1}") eq_refl).
Defined.

(** X8. With the header a class inherits from [JSON], detection followed
    by the header check accepts exactly the files whose document is a JSON
    object. *)
Theorem JSON_detect_default_header (self : PIF) (t : str) :
  let detected := JSON_is_format (with_file self (open_text t)) in
  (detected.1 = Ok true
   /\ JSON_checkheader detected.2 json_header = Ok true)
  <-> exists kvs, json_loads t = Ok (JDict kvs).
Proof.
  unfold JSON_is_format, file_read. simpl. rewrite drop_0.
  destruct (json_loads t) as [j|e] eqn:E; simpl.
  - unfold JSON_checkheader. simpl. split.
    + intros [_ H]. destruct j as [a|l|kvs]; simpl in H; try done. eauto.
    + intros [kvs [= ->]]. done.
  - split; [|by intros [? ?]]. intros [H _].
    apply json_loads_raise in E as ->. done.
Qed.

(** ** [pif2json]: further properties *)

Lemma join_cons_char (sep : str) (c : N) (l : str) (ls : list str) :
  join sep ((c :: l) :: ls) = c :: join sep (l :: ls).
Proof. by destruct ls. Qed.

(** Splitting on one character and joining with another replaces the
    one by the other. *)
Lemma join_split_on (a b : N) (s : str) :
  join [b] (split_on a s) = replace_char a b s.
Proof.
  induction s as [|c s IH]; [done|]. simpl.
  destruct (c =? a)%N.
  - rewrite join_cons by apply split_on_nonempty. simpl. by rewrite IH.
  - destruct (split_on a s) as [|l ls] eqn:E; [by apply split_on_nonempty in E|].
    rewrite join_cons_char. by rewrite IH.
Qed.

Lemma replace_char_same (a : N) (s : str) : replace_char a a s = s.
Proof.
  induction s as [|c s IH]; [done|]. simpl. rewrite IH.
  destruct (c =? a)%N eqn:E; [|done]. apply N.eqb_eq in E. by subst.
Qed.

Lemma join_split_on_eq (sep : N) (s : str) : join [sep] (split_on sep s) = s.
Proof. by rewrite join_split_on, replace_char_same. Qed.

Lemma no_star_line_keep (s : str) : forall (n : nat) (bol : bool),
  no_star_line bol s = true -> length s <= n -> re_sub_markers n bol s = s.
Proof.
  induction s as [|c s IH]; intros n bol Hs Hn; [by destruct n|].
  simpl in Hs. apply andb_true_iff in Hs as [Hc Hs].
  rewrite re_sub_markers_keep; [|done|].
  - f_equal. by apply IH.
  - destruct bol; [right|by left]. simpl in Hc.
    apply match_marker_not_star. intros ->. done.
Qed.

(** X9. On text in which no line begins with a star, [pif2json] decodes
    the text itself with every line feed replaced by a comma, the commas at
    its end dropped, between brackets: a star inside a line, or a marker
    that does not start its line, is left alone. *)
Theorem pif2json_no_star_line (text : str) :
  no_star_line true text = true ->
  pif2json_text text
  = json_loads ([91%N] ++ rstrip 44 (replace_char 10 44 text) ++ [93%N]).
Proof.
  intros Hs. unfold pif2json_text.
  rewrite (no_star_line_keep _ _ _ Hs) by done. by rewrite join_split_on.
Qed.

Lemma pif2json_no_star_line_witness :
  no_star_line true (js "{'p':'a***b*** '}") = true
  /\ pif2json_text (js "{'p':'a***b*** '}")
     = json_loads
         ([91%N] ++ rstrip 44 (replace_char 10 44 (js "{'p':'a***b*** '}"))
          ++ [93%N]).
Proof.
  split; [reflexivity|].
  exact (pif2json_no_star_line (js "{'p':'a***b*** '}") eq_refl).
Defined.

Lemma no_star_line_app_lf (n : nat) (s : str) : forall bol : bool,
  no_star_line bol s = true -> no_star_line bol (s ++ repeat 10%N n) = true.
Proof.
  induction s as [|c s IH]; intros bol; simpl.
  - intros _. revert bol. induction n as [|n IHn]; intros bol; [done|].
    simpl. rewrite IHn. by destruct bol.
  - intros [Hc Hs]%andb_true_iff. rewrite Hc. simpl. by apply IH.
Qed.

Lemma rstrip_repeat (c : N) (n : nat) : rstrip c (repeat c n) = [].
Proof.
  induction n as [|n IH]; [done|]. simpl. rewrite IH. by rewrite N.eqb_refl.
Qed.

Lemma replace_char_app (a b : N) (s t : str) :
  replace_char a b (s ++ t) = replace_char a b s ++ replace_char a b t.
Proof. apply map_app. Qed.

Lemma replace_char_repeat (a b : N) (n : nat) :
  replace_char a b (repeat a n) = repeat b n.
Proof.
  induction n as [|n IH]; [done|]. simpl. by rewrite IH, N.eqb_refl.
Qed.

(** X10. Line feeds at the end of the text do not count: on text in which
    no line begins with a star, [pif2json] returns the same with any
    number of line feeds appended. *)
Theorem pif2json_trailing_line_feeds (text : str) (n : nat) :
  no_star_line true text = true ->
  pif2json_text (text ++ repeat 10%N n) = pif2json_text text.
Proof.
  intros Hs. unfold pif2json_text.
  rewrite (no_star_line_keep _ _ _ (no_star_line_app_lf n _ _ Hs)) by done.
  rewrite (no_star_line_keep _ _ _ Hs) by done.
  rewrite !join_split_on, replace_char_app, replace_char_repeat.
  by rewrite rstrip_app_nil by apply rstrip_repeat.
Qed.

Lemma pif2json_trailing_line_feeds_witness :
  no_star_line true (js "{'a':1}") = true
  /\ pif2json_text (js "{'a':1}" ++ repeat 10%N 2)
     = pif2json_text (js "{'a':1}").
Proof.
  split; [reflexivity|].
  exact (pif2json_trailing_line_feeds (js "{'a':1}") 2 eq_refl).
Defined.

Lemma replace_char_notin (a b : N) (s : str) :
  a ∉ s -> replace_char a b s = s.
Proof.
  induction s as [|c s IH]; [done|]. intros [Hc Hs]%not_elem_of_cons. simpl.
  assert ((c =? a)%N = false) as -> by (apply N.eqb_neq; congruence).
  f_equal. by apply IH.
Qed.

(** The decoder, after a first record line, on a second comma where a
    value has to start. *)
Lemma scan_once_double_comma (l : str) (v : json) (Y : str) (m : nat) :
  record_line l v ->
  length (l ++ Y) + 3 < m ->
  scan_once m (91%N :: l ++ 44%N :: 44%N :: Y) = PErr.
Proof.
  intros (w & b & tw & -> & Hw & Htw & Hlen & Hscan)%record_line_scan Hm.
  rewrite !length_app in Hm. cbn [length] in Hm. rewrite ?length_app in Hm.
  destruct m as [|[|[|m]]]; try lia.
  rewrite scan_once_S. unfold scan_once_body.
  change (91 =? 34)%N with false. change (91 =? 123)%N with false.
  change (91 =? 91)%N with true. cbv iota.
  rewrite <- app_assoc, skip_ws_all by done. cbn [app].
  change (skip_ws (123%N :: ?x)) with (123%N :: x).
  change (123 =? 93)%N with false. cbv iota.
  rewrite Hscan by (cbn [length]; lia). cbn [pbind].
  rewrite array_rest_S. unfold array_rest_body.
  rewrite skip_ws_all by done.
  change (skip_ws (44%N :: ?x)) with (44%N :: x).
  change (44 =? 93)%N with false. change (44 =? 44)%N with true. cbv iota.
  reflexivity.
Qed.

(** X11. An empty line between two record lines is an error: [pif2json]
    raises [JSONDecodeError], since the two commas the line feeds become
    leave an element of the list empty. *)
Theorem pif2json_empty_line (l1 l2 : str) (v1 v2 : json) :
  record_line l1 v1 -> record_line l2 v2 ->
  pif2json_text (l1 ++ 10%N :: 10%N :: l2) = Raise JSONDecodeError.
Proof.
  intros H1 H2. unfold pif2json_text.
  assert (re_sub_markers (length (l1 ++ 10%N :: 10%N :: l2)) true
            (l1 ++ 10%N :: 10%N :: l2) = l1 ++ 10%N :: 10%N :: l2) as ->.
  { rewrite re_sub_markers_line;
      [|apply H1 | right; by eapply record_line_no_match | done].
    f_equal. f_equal.
    rewrite (re_sub_markers_line [] l2);
      [|apply not_elem_of_nil | right; by apply match_marker_not_star | done].
    simpl. f_equal. apply re_sub_markers_no_line; [apply H2| |done].
    right. rewrite <- (app_nil_r l2). by eapply record_line_no_match. }
  rewrite join_split_on. rewrite replace_char_app. simpl.
  rewrite !replace_char_notin by (apply H1 || apply H2).
  destruct (record_line_rstrip_ready _ _ H2) as (l0 & x & -> & Hx).
  change (l1 ++ 44%N :: 44%N :: l0 ++ [x])
    with (l1 ++ (44%N :: 44%N :: l0) ++ [x]).
  rewrite app_assoc, rstrip_snoc_ne by done.
  rewrite <- !app_assoc. cbn [app]. unfold json_loads.
  change (skip_ws (91%N :: ?x)) with (91%N :: x).
  rewrite (scan_once_double_comma _ _ _ _ H1); [done|].
  repeat first [rewrite length_app | progress cbn [length]]. lia.
Qed.

Lemma pif2json_empty_line_witness :
  record_line (js "{'a':1}") (JDict [(u "a", JInt 1)])
  /\ record_line (js "{'b':2}") (JDict [(u "b", JInt 2)])
  /\ pif2json_text (js "{'a':1}" ++ 10%N :: 10%N :: js "{'b':2}")
     = Raise JSONDecodeError.
Proof.
  assert (record_line (js "{'a':1}") (JDict [(u "a", JInt 1)])) as H1.
  { split; [by vm_compute; intros ?%list_elem_of_In; simpl in *; intuition lia|].
    split; [eauto|]. by vm_compute. }
  assert (record_line (js "{'b':2}") (JDict [(u "b", JInt 2)])) as H2.
  { split; [by vm_compute; intros ?%list_elem_of_In; simpl in *; intuition lia|].
    split; [eauto|]. by vm_compute. }
  split; [exact H1|]. split; [exact H2|].
  exact (pif2json_empty_line _ _ _ _ H1 H2).
Defined.

(** ** The domain-prefix set: further properties *)

Lemma load_domain_prefixes_app (ps qs : list str) : forall cls : gset str,
  Forall (fun p => p ≠ []) ps ->
  load_domain_prefixes cls (ps ++ qs)
  = load_domain_prefixes (load_domain_prefixes cls ps).2 qs.
Proof.
  induction ps as [|p ps IH]; intros cls Hps; [done|].
  apply Forall_cons in Hps as [Hp Hps]. destruct p as [|c tail]; [done|].
  simpl. destruct (c =? 33)%N; by apply IH.
Qed.

Ltac gset_eq :=
  apply set_eq; intros ?;
  rewrite ?elem_of_union, ?elem_of_difference, ?elem_of_union,
    ?elem_of_difference, ?elem_of_singleton, ?elem_of_empty;
  tauto.

(** The set a list of directives leaves is the set it finds, less some
    elements, plus some others. *)
Lemma load_domain_prefixes_shape (ps : list str) :
  exists R A : gset str,
    forall cls, (load_domain_prefixes cls ps).2 = (cls ∖ R) ∪ A.
Proof.
  induction ps as [|p ps (R & A & IH)].
  - exists ∅, ∅. intros cls. simpl. gset_eq.
  - destruct p as [|c tail].
    + exists ∅, ∅. intros cls. simpl. gset_eq.
    + simpl. destruct (c =? 33)%N.
      * exists ({[ tail ]} ∪ R), A. intros cls. rewrite IH. gset_eq.
      * exists R, (({[ c :: tail ]} ∖ R) ∪ A). intros cls. rewrite IH.
        gset_eq.
Qed.

(** X12. The directives accumulate on the class: building one instance
    with the list [ps] and then another with the list [qs] leaves the
    set that one instance built with [ps ++ qs] leaves. *)
Theorem PIF_init_accumulates (cls : gset str) (f1 f2 f : handle)
    (ps qs : list str) :
  Forall (fun p => p ≠ []) ps ->
  (PIF_init (PIF_init cls f1 (prefix_settings ps)).2 f2 (prefix_settings qs)).2
  = (PIF_init cls f (prefix_settings (ps ++ qs))).2.
Proof.
  intros Hps. unfold PIF_init, prefix_settings. simpl.
  rewrite (load_domain_prefixes_app ps qs cls Hps).
  destruct (load_domain_prefixes cls ps) as [r1 cls1]. simpl.
  by destruct (load_domain_prefixes cls1 qs).
Qed.

Lemma PIF_init_accumulates_witness :
  Forall (fun p : str => p ≠ []) [u "corp"; u "!www"]
  /\ (PIF_init
        (PIF_init default_domain_prefixes (open_text [])
           (prefix_settings [u "corp"; u "!www"])).2
        (open_text []) (prefix_settings [u "!corp"])).2
     = (PIF_init default_domain_prefixes (open_text [])
          (prefix_settings ([u "corp"; u "!www"] ++ [u "!corp"]))).2.
Proof.
  assert (Forall (fun p : str => p ≠ []) [u "corp"; u "!www"]) as H
    by (repeat constructor; done).
  split; [exact H|].
  exact (PIF_init_accumulates default_domain_prefixes (open_text [])
           (open_text []) (open_text []) _ [u "!corp"] H).
Defined.

(** X13. When the list holds an empty entry, the entries before it have
    been applied to the class set by the time the constructor raises
    [IndexError]; the entries after it are not read. *)
Theorem PIF_init_partial_on_failure (cls : gset str) (f : handle)
    (ps rest : list str) :
  Forall (fun p => p ≠ []) ps ->
  PIF_init cls f (prefix_settings (ps ++ [] :: rest))
  = (Raise IndexError, (load_domain_prefixes cls ps).2).
Proof.
  intros Hps. unfold PIF_init, prefix_settings. simpl.
  rewrite (load_domain_prefixes_app ps ([] :: rest) cls Hps). simpl.
  by destruct (load_domain_prefixes cls ps).
Qed.

Lemma PIF_init_partial_on_failure_witness :
  Forall (fun p : str => p ≠ []) [u "!www"]
  /\ PIF_init default_domain_prefixes (open_text [])
       (prefix_settings ([u "!www"] ++ [] :: [u "corp"]))
     = (Raise IndexError,
        (load_domain_prefixes default_domain_prefixes [u "!www"]).2).
Proof.
  assert (Forall (fun p : str => p ≠ []) [u "!www"]) as H
    by (repeat constructor; done).
  split; [exact H|].
  exact (PIF_init_partial_on_failure default_domain_prefixes (open_text [])
           _ [u "corp"] H).
Defined.

(** X14. Building a second instance with the settings of the first leaves
    the class set as the first left it, whatever the settings are. *)
Theorem PIF_init_same_settings (cls : gset str) (f1 f2 : handle)
    (s : option settings) :
  (PIF_init (PIF_init cls f1 s).2 f2 s).2 = (PIF_init cls f1 s).2.
Proof.
  assert (forall (b : bool) (ps : list str) (c : gset str),
            ((if b then load_domain_prefixes c ps else (Ok (), c)).2
             = if b then (load_domain_prefixes c ps).2 else c)) as Hif
    by (by intros []).
  assert (forall (c : gset str) (f : handle),
            (PIF_init c f s).2
            = if default true
                   (opt_strip_domain_prefixes
                      (default (Options None None None)
                         (onepassword (default (Settings None) s))))
              then (load_domain_prefixes c
                      (default []
                         (opt_domain_prefixes
                            (default (Options None None None)
                               (onepassword (default (Settings None) s)))))).2
              else c) as Hinit.
  { intros c f. unfold PIF_init. rewrite <- Hif.
    by destruct (if default true _ then _ else _). }
  rewrite !Hinit. destruct (default true _); [|done].
  destruct (load_domain_prefixes_shape
              (default []
                 (opt_domain_prefixes
                    (default (Options None None None)
                       (onepassword (default (Settings None) s))))))
    as (R & A & Hshape).
  rewrite !Hshape. gset_eq.
Qed.

(** X15. No directive adds the empty string or a string that begins with
    an exclamation mark: a class set free of them stays free of them. *)
Theorem load_domain_prefixes_never_adds (ps : list str) : forall cls : gset str,
  (forall x, x ∈ cls -> x ≠ [] /\ head x ≠ Some 33%N) ->
  forall x, x ∈ (load_domain_prefixes cls ps).2 ->
    x ≠ [] /\ head x ≠ Some 33%N.
Proof.
  induction ps as [|p ps IH]; intros cls Hcls; [done|].
  destruct p as [|c tail]; [done|]. simpl.
  destruct (c =? 33)%N eqn:E; apply IH.
  - intros x [Hx _]%elem_of_difference. by apply Hcls.
  - intros x [->%elem_of_singleton|Hx]%elem_of_union; [|by apply Hcls].
    split; [done|]. simpl. intros [= ->]. done.
Qed.

Lemma load_domain_prefixes_never_adds_witness :
  (forall x, x ∈ default_domain_prefixes -> x ≠ [] /\ head x ≠ Some 33%N)
  /\ forall x,
       x ∈ (load_domain_prefixes default_domain_prefixes
              [u "corp"; u "!"; u "!!x"]).2 ->
       x ≠ [] /\ head x ≠ Some 33%N.
Proof.
  assert (forall x, x ∈ default_domain_prefixes -> x ≠ [] /\ head x ≠ Some 33%N)
    as H.
  { intros x Hx. unfold default_domain_prefixes in Hx.
    apply elem_of_list_to_set in Hx.
    repeat (apply elem_of_cons in Hx as [->|Hx]; [by split|]).
    by apply elem_of_nil in Hx. }
  split; [exact H|].
  exact (load_domain_prefixes_never_adds [u "corp"; u "!"; u "!!x"] _ H).
Defined.

(** ** [_get_domain]: further properties *)

Lemma strip_labels_split (cls : gset str) (parts : list str) :
  exists dropped,
    parts = dropped ++ strip_labels cls parts
    /\ Forall (fun p => p ∈ cls) dropped.
Proof.
  induction parts as [|p rest (dropped & Heq & Hall)]; [by exists []|].
  cbn [strip_labels].
  destruct (bool_decide (2 < length (p :: rest)) && bool_decide (p ∈ cls)) eqn:E.
  - apply andb_true_iff in E as [_ Hp%bool_decide_eq_true].
    exists (p :: dropped). split; [simpl; congruence | by constructor].
  - by exists [].
Qed.

Lemma strip_labels_length (cls : gset str) (parts : list str) :
  Nat.min 2 (length parts) <= length (strip_labels cls parts).
Proof.
  induction parts as [|p rest IH]; [done|]. cbn [strip_labels].
  case_bool_decide as Hlen; cbn [andb length] in *; [|lia].
  case_bool_decide; cbn [length]; lia.
Qed.

Lemma strip_labels_short (cls : gset str) (parts : list str) :
  length parts <= 2 -> strip_labels cls parts = parts.
Proof.
  intros Hlen. destruct parts as [|p rest]; [done|]. cbn [strip_labels].
  case_bool_decide; [cbn [length] in *; lia | done].
Qed.

(** X16. The loop of [_get_domain] never leaves fewer than two labels,
    and a domain of one or two labels is returned as it is. *)
Theorem strip_labels_keeps_two (cls : gset str) (parts : list str) :
  Nat.min 2 (length parts) <= length (strip_labels cls parts)
  /\ (length parts <= 2 -> strip_labels cls parts = parts).
Proof.
  split.
  - induction parts as [|p rest IH]; [done|]. cbn [strip_labels].
    case_bool_decide as Hlen; cbn [andb length] in *; [|lia].
    case_bool_decide; cbn [length]; lia.
  - intros Hlen. destruct parts as [|p rest]; [done|]. cbn [strip_labels].
    case_bool_decide; [cbn [length] in *; lia | done].
Qed.

(** X17. What the loop of [_get_domain] returns is the label list without
    a run of leading labels that all are in the prefix set, and the run is
    maximal: two labels are left, or the first label left is no prefix. *)
Theorem strip_labels_spec (cls : gset str) (parts : list str) :
  (exists dropped,
     parts = dropped ++ strip_labels cls parts
     /\ Forall (fun p => p ∈ cls) dropped)
  /\ (length (strip_labels cls parts) <= 2
      \/ exists p rest, strip_labels cls parts = p :: rest /\ p ∉ cls).
Proof.
  split; [apply strip_labels_split|].
  induction parts as [|p rest IH]; [left; simpl; lia|]. cbn [strip_labels].
  case_bool_decide as Hlen; simpl; [|left; simpl in *; lia].
  case_bool_decide as Hp; simpl; [done|]. right. eauto.
Qed.

Lemma strip_labels_nonempty (cls : gset str) (parts : list str) :
  parts ≠ [] -> strip_labels cls parts ≠ [].
Proof.
  intros Hne Heq. pose proof (strip_labels_length cls parts) as Hmin.
  rewrite Heq in Hmin. destruct parts; [done|]. simpl in Hmin. lia.
Qed.

Lemma join_app_suffix (sep : str) (a b : list str) :
  b ≠ [] -> join sep b `suffix_of` join sep (a ++ b).
Proof.
  intros Hb. induction a as [|x a IH]; [done|]. cbn [app].
  rewrite join_cons by (by destruct a, b).
  destruct IH as [k ->]. exists (x ++ sep ++ k). by rewrite <- !app_assoc.
Qed.

Section DomainFacts.
Context {C : Collaborators}.

(** X18. [_get_domain] returns an end of the domain that [clean.domain]
    gives: the domain itself when prefixes are not stripped, or when it has
    at most two labels or a first label outside the prefix set. *)
Theorem get_domain_suffix (self : PIF) (cls : gset str) (url : json)
    (p d : str) :
  clean_protocol url = Ok p ->
  clean_domain p = Ok d ->
  exists r,
    get_domain self cls url = Ok r
    /\ r `suffix_of` d
    /\ (strip_domain_prefixes self = false
        \/ length (split_on 46 d) <= 2
        \/ (exists l ls, split_on 46 d = l :: ls /\ l ∉ cls) ->
        r = d).
Proof.
  intros Hp Hd. unfold get_domain. rewrite Hp. simpl. rewrite Hd. simpl.
  destruct (strip_domain_prefixes self) eqn:Hstrip.
  - eexists. split; [done|]. split.
    + destruct (strip_labels_split cls (split_on 46 d)) as (dropped & Heq & _).
      rewrite <- (join_split_on_eq 46 d) at 2. rewrite Heq at 2.
      apply join_app_suffix, strip_labels_nonempty, split_on_nonempty.
    + intros [?|[Hlen|(l & ls & Heq & Hl)]]; [done| |].
      * rewrite (strip_labels_short cls _ Hlen).
        apply join_split_on_eq.
      * rewrite Heq. cbn [strip_labels].
        rewrite (bool_decide_eq_false_2 _ Hl), andb_false_r.
        rewrite <- Heq. apply join_split_on_eq.
  - exists d. split; [done|]. split; [done|]. done.
Qed.
End DomainFacts.

Lemma get_domain_suffix_witness :
  @clean_protocol example_collaborators (JStr (u "www.login.example.com"))
  = Ok (u "www.login.example.com")
  /\ @clean_domain example_collaborators (u "www.login.example.com")
     = Ok (u "www.login.example.com")
  /\ exists r,
       @get_domain example_collaborators (MkPIF true true (open_text []) JNull [])
         default_domain_prefixes (JStr (u "www.login.example.com")) = Ok r
       /\ r `suffix_of` u "www.login.example.com"
       /\ (strip_domain_prefixes (MkPIF true true (open_text []) JNull []) = false
           \/ length (split_on 46 (u "www.login.example.com")) <= 2
           \/ (exists l ls,
                 split_on 46 (u "www.login.example.com") = l :: ls
                 /\ l ∉ default_domain_prefixes) ->
           r = u "www.login.example.com").
Proof.
  split; [reflexivity|]. split; [reflexivity|].
  exact (@get_domain_suffix example_collaborators
           (MkPIF true true (open_text []) JNull []) default_domain_prefixes
           (JStr (u "www.login.example.com")) _ _ eq_refl eq_refl).
Defined.

(** ** [parse]: further properties *)

Lemma eq_str_inv (v : json) (s : str) : eq_str v s = true -> v = JStr s.
Proof.
  destruct v as [a| |]; simpl; [|done..].
  destruct a as [| | |f|t]; simpl; try done.
  by intros ->%str_eqb_eq.
Qed.

Section LoopFacts.
Context {C : Collaborators}.

Lemma parse_item_emits (self : PIF) (cls : gset str)
    (st st' : list entry * list (atom * folder)) (item : json) :
  parse_item self cls st item = Ok st' ->
  if emits_entry item
  then exists kvs e,
         item = JDict kvs /\ parse_webform self cls kvs = Ok e
         /\ st'.1 = st.1 ++ [e]
  else st'.1 = st.1.
Proof.
  destruct item as [a|l|kvs]; [done..|]. unfold parse_item, emits_entry.
  destruct (truthy (default (JBool false) _)); simpl; [by intros [= <-]|].
  destruct (eq_str _ (u "system.folder.Regular")) eqn:Ef.
  - apply eq_str_inv in Ef as ->.
    change (eq_str (JStr (u "system.folder.Regular")) (u "webforms.WebForm"))
      with false.
    destruct (default (JStr []) (dict_get str_eqb kvs (u "uuid"))); try done.
    by intros [= <-].
  - destruct (eq_str _ (u "webforms.WebForm")); [|by intros [= <-]].
    destruct (parse_webform self cls kvs) as [e|x] eqn:Ew; simpl; [|done].
    intros [= <-]. by exists kvs, e.
Qed.

(** X19. The loop of [parse] only appends to [self.data]: the entries held
    before stay in front, and behind them comes one entry for each record
    that is not trashed and has the type ['webforms.WebForm'], in the order
    of the records, each computed from its own record alone. Folders and
    records of any other type add no entry. *)
Theorem parse_loop_entries (self : PIF) (cls : gset str) (items : list json) :
  forall st st' : list entry * list (atom * folder),
    foldM (parse_item self cls) st items = Ok st' ->
    exists new,
      st'.1 = st.1 ++ new
      /\ Forall2
           (fun item e =>
              exists kvs, item = JDict kvs /\ parse_webform self cls kvs = Ok e)
           (filter (fun item => emits_entry item = true) items) new.
Proof.
  induction items as [|item items IH]; intros st st'; simpl.
  - intros [= <-]. exists []. by rewrite app_nil_r.
  - destruct (parse_item self cls st item) as [st1|x] eqn:E; [|done].
    intros (new & Heq & Hall)%IH. apply parse_item_emits in E.
    rewrite filter_cons. destruct (emits_entry item).
    + destruct E as (kvs & e & -> & He & Hst1).
      exists (e :: new). rewrite Heq, Hst1, <- app_assoc. split; [done|].
      rewrite decide_True by done. constructor; eauto.
    + exists new. rewrite Heq, E. split; [done|].
      by rewrite decide_False by done.
Qed.

(** X20. The loop of [parse] runs to its end only when every record is an
    object: a line that decodes to a number, a string, a list or [null]
    makes [parse] raise. *)
Theorem parse_loop_objects (self : PIF) (cls : gset str) (items : list json) :
  forall st st' : list entry * list (atom * folder),
    foldM (parse_item self cls) st items = Ok st' ->
    Forall (fun item => exists kvs, item = JDict kvs) items.
Proof.
  induction items as [|item items IH]; intros st st'; simpl; [done|].
  destruct (parse_item self cls st item) as [st1|x] eqn:E; [|done].
  intros Hrest%IH. constructor; [|done].
  destruct item as [a|l|kvs]; [done..|eauto].
Qed.

(** X21. The last loop of [parse] copies no ignored key: every binding of
    the entry after it was in the entry before, or carries the value of a
    record key outside [PIF.ignore] under the name the key map gives that
    key. *)
Theorem merge_item_bindings (item : list (str * json)) : forall (e : entry)
    (a : atom) (v : json),
  (a, v) ∈ merge_item e item ->
  (a, v) ∈ e
  \/ exists k, (k, v) ∈ item /\ (k ∉ ignore)
       /\ a = AStr (default k (dict_get str_eqb invkeys k)).
Proof.
  assert (forall (e : entry) (s : str) (w : json) (a : atom) (v : json),
            (a, v) ∈ dict_set key_eq e (AStr s) w ->
            (a, v) ∈ e \/ (a = AStr s /\ v = w)) as Hset.
  { induction e as [|[k0 v0] e IH]; intros s w a v; simpl.
    - intros [= -> ->]%list_elem_of_singleton. by right.
    - destruct (key_eq k0 (AStr s)) eqn:E; rewrite !elem_of_cons.
      + apply key_eq_str in E as ->.
        intros [[= -> ->]|Hin]; [by right | left; by right].
      + intros [[= -> ->]|Hin]; [left; by left|].
        destruct (IH _ _ _ _ Hin) as [?|?]; [left; by right | by right]. }
  unfold merge_item.
  induction item as [|[k w] item IH]; intros e a v; simpl; [by left|].
  intros [Hin|(k' & Hk' & Hig & ->)]%IH.
  - case_bool_decide as Hig; [by left|].
    apply Hset in Hin as [?|[-> ->]]; [by left|]. right. exists k.
    split; [apply list_elem_of_here | done].
  - right. exists k'. split; [by apply list_elem_of_further | done].
Qed.

Lemma dict_del_absent {V : Type} (d : list (str * V)) (k : str) :
  dict_get str_eqb d k = None -> dict_del str_eqb d k = d.
Proof.
  induction d as [|[k0 v0] d IH]; simpl; [done|].
  destruct (str_eqb k0 k); [done|]. intros ?%IH. congruence.
Qed.

(** X22. A credential record without [secureContents] is imported from
    its own keys alone: no field is collected, no one-time password is
    looked for, and no exception is raised. *)
Theorem parse_webform_no_secure_contents (self : PIF) (cls : gset str)
    (item : list (str * json)) :
  browserpass self = false ->
  dict_get str_eqb item (u "secureContents") = None ->
  parse_webform self cls item = Ok (merge_item [] item).
Proof.
  intros Hb Hsc. unfold parse_webform, rewrite_title. rewrite Hb. simpl.
  rewrite Hsc. simpl. by rewrite (dict_del_absent _ _ Hsc).
Qed.

(** X23. With [browserpass] set, a record whose [location] is true and
    whose domain is not empty gets the domain as its [title]; every other
    key of the record keeps its value. *)
Theorem rewrite_title_browserpass (self : PIF) (cls : gset str)
    (item : list (str * json)) (url : json) (d : str) :
  browserpass self = true ->
  dict_get str_eqb item (u "location") = Some url ->
  truthy url = true ->
  get_domain self cls url = Ok d ->
  d ≠ [] ->
  exists item',
    rewrite_title self cls item = Ok item'
    /\ dict_get str_eqb item' (u "title") = Some (JStr d)
    /\ forall k, k ≠ u "title" ->
         dict_get str_eqb item' k = dict_get str_eqb item k.
Proof.
  intros Hb Hloc Hurl Hd Hne. unfold rewrite_title. rewrite Hb, Hloc. simpl.
  rewrite Hurl, Hd. simpl. rewrite (str_eqb_ne _ _ Hne). simpl.
  eexists. split; [done|]. split.
  - apply dict_get_set_eq.
  - intros k Hk. by apply dict_get_set_ne.
Qed.
End LoopFacts.

Lemma find_otpauth_fields_sound (fs : list json) (v : str) :
  find_otpauth_fields fs = Ok (Some v) ->
  startswith v (u "otpauth:") = true
  /\ exists f, f ∈ fs /\ py_get f (u "v") JNull = Ok (JStr v).
Proof.
  induction fs as [|f fs IH]; simpl; [done|].
  destruct (py_get f (u "v") JNull) as [x|e] eqn:E; [|done].
  assert (find_otpauth_fields fs = Ok (Some v) ->
          startswith v (u "otpauth:") = true
          /\ exists f0, f0 ∈ f :: fs /\ py_get f0 (u "v") JNull = Ok (JStr v))
    as Hrest.
  { intros (Hs & f0 & Hin & Hf0)%IH. split; [done|]. exists f0.
    split; [by apply list_elem_of_further | done]. }
  destruct (truthy x); [|done].
  destruct x as [[| | | |t]| |]; try done.
  destruct (startswith t (u "otpauth:")) eqn:Hs; [|done].
  intros [= <-]. split; [done|]. exists f. split; [apply list_elem_of_here | done].
Qed.

(** X24. What [_find_otpauth] returns, when it returns a value, is the
    [v] of a field of one of the sections, and it begins with
    [otpauth:]. *)
Theorem find_otpauth_sound (sections : json) (v : str) :
  find_otpauth sections = Ok (Some v) ->
  startswith v (u "otpauth:") = true
  /\ exists ss s fs f,
       py_iter sections = Ok ss /\ s ∈ ss
       /\ (fl ← py_get s (u "fields") (JList []); py_iter fl) = Ok fs
       /\ f ∈ fs /\ py_get f (u "v") JNull = Ok (JStr v).
Proof.
  unfold find_otpauth. destruct (py_iter sections) as [ss|e]; simpl; [|done].
  intros H.
  assert (startswith v (u "otpauth:") = true
          /\ exists s fs f,
               s ∈ ss
               /\ (fl ← py_get s (u "fields") (JList []); py_iter fl) = Ok fs
               /\ f ∈ fs /\ py_get f (u "v") JNull = Ok (JStr v))
    as (Hs & s & fs & f & ? & ? & ? & ?).
  { induction ss as [|s ss IH]; cbn [find_otpauth_sections] in H; [done|].
    destruct (py_get s (u "fields") (JList [])) as [fl|e] eqn:E1;
      simpl in H; [|done].
    destruct (py_iter fl) as [fs|e] eqn:E2; simpl in H; [|done].
    assert ((fl ← py_get s (u "fields") (JList []); py_iter fl) = Ok fs) as E
      by (by rewrite E1).
    destruct (find_otpauth_fields fs) as [[v'|]|e] eqn:Ef; [| |done].
    - injection H as ->. apply find_otpauth_fields_sound in Ef as (Hs & f & ? & ?).
      split; [done|]. exists s, fs, f.
      split; [apply list_elem_of_here | done].
    - destruct (IH H) as (Hs & s' & fs' & f' & ? & ? & ? & ?). split; [done|].
      exists s', fs', f'. split; [by apply list_elem_of_further | done]. }
  split; [done|]. by exists ss, s, fs, f.
Qed.

Lemma parse_loop_entries_witness :
  exists new,
    ([[(AStr (u "otpauth"), JStr (u "otpauth://a"))]],
     [(AStr (u "F1"), Folder (JStr (u "Work")) (JStr []))]).1
    = ([] : list entry, [] : list (atom * folder)).1 ++ new
    /\ Forall2
         (fun item e =>
            exists kvs,
              item = JDict kvs
              /\ parse_webform (C := example_collaborators)
                   (MkPIF false true (open_text []) JNull [])
                   default_domain_prefixes kvs = Ok e)
         (filter (fun item => emits_entry item = true) example_items) new.
Proof.
  refine (parse_loop_entries (C := example_collaborators)
            (MkPIF false true (open_text []) JNull []) default_domain_prefixes
            example_items ([], [])
            ([[(AStr (u "otpauth"), JStr (u "otpauth://a"))]],
             [(AStr (u "F1"), Folder (JStr (u "Work")) (JStr []))]) _).
  vm_compute. reflexivity.
Defined.

Lemma parse_loop_objects_witness :
  Forall (fun item => exists kvs, item = JDict kvs) example_items.
Proof.
  refine (parse_loop_objects (C := example_collaborators)
            (MkPIF false true (open_text []) JNull []) default_domain_prefixes
            example_items ([], [])
            ([[(AStr (u "otpauth"), JStr (u "otpauth://a"))]],
             [(AStr (u "F1"), Folder (JStr (u "Work")) (JStr []))]) _).
  vm_compute. reflexivity.
Defined.

Lemma merge_item_bindings_witness :
  (AStr (u "login"), JStr (u "bob"))
  ∈ merge_item (C := example_collaborators)
      [(AStr (u "uuid"), JStr (u "kept"))]
      [(u "uuid", JStr (u "U")); (u "username", JStr (u "bob"))]
  /\ ((AStr (u "login"), JStr (u "bob"))
      ∈ ([(AStr (u "uuid"), JStr (u "kept"))] : entry)
      \/ exists k,
           (k, JStr (u "bob"))
           ∈ [(u "uuid", JStr (u "U")); (u "username", JStr (u "bob"))]
           /\ (k ∉ ignore)
           /\ AStr (u "login")
              = AStr (default k
                        (dict_get str_eqb
                           (invkeys (Collaborators := example_collaborators)) k))).
Proof.
  assert ((AStr (u "login"), JStr (u "bob"))
          ∈ merge_item (C := example_collaborators)
              [(AStr (u "uuid"), JStr (u "kept"))]
              [(u "uuid", JStr (u "U")); (u "username", JStr (u "bob"))]) as H.
  { vm_compute. apply list_elem_of_further, list_elem_of_here. }
  split; [exact H|].
  exact (merge_item_bindings (C := example_collaborators) _ _ _ _ H).
Defined.

Lemma parse_webform_no_secure_contents_witness :
  parse_webform (C := example_collaborators)
    (MkPIF false true (open_text []) JNull []) default_domain_prefixes
    [(u "typeName", JStr (u "webforms.WebForm")); (u "title", JStr (u "t"))]
  = Ok (merge_item (C := example_collaborators) []
          [(u "typeName", JStr (u "webforms.WebForm")); (u "title", JStr (u "t"))]).
Proof.
  exact (parse_webform_no_secure_contents (C := example_collaborators)
           (MkPIF false true (open_text []) JNull []) default_domain_prefixes
           [(u "typeName", JStr (u "webforms.WebForm")); (u "title", JStr (u "t"))]
           eq_refl eq_refl).
Defined.

Lemma rewrite_title_browserpass_witness :
  exists item',
    rewrite_title (C := example_collaborators)
      (MkPIF true true (open_text []) JNull []) default_domain_prefixes
      [(u "title", JStr (u "My bank"));
       (u "location", JStr (u "www.bank.example.com"))] = Ok item'
    /\ dict_get str_eqb item' (u "title") = Some (JStr (u "bank.example.com"))
    /\ forall k, k ≠ u "title" ->
         dict_get str_eqb item' k
         = dict_get str_eqb
             [(u "title", JStr (u "My bank"));
              (u "location", JStr (u "www.bank.example.com"))] k.
Proof.
  refine (rewrite_title_browserpass (C := example_collaborators)
            (MkPIF true true (open_text []) JNull []) default_domain_prefixes
            [(u "title", JStr (u "My bank"));
             (u "location", JStr (u "www.bank.example.com"))]
            (JStr (u "www.bank.example.com")) (u "bank.example.com")
            eq_refl _ eq_refl _ _).
  - vm_compute. reflexivity.
  - vm_compute. reflexivity.
  - discriminate.
Defined.

Lemma find_otpauth_sound_witness :
  startswith (u "otpauth://a") (u "otpauth:") = true
  /\ exists ss s fs f,
       py_iter (JList example_sections) = Ok ss /\ s ∈ ss
       /\ (fl ← py_get s (u "fields") (JList []); py_iter fl) = Ok fs
       /\ f ∈ fs /\ py_get f (u "v") JNull = Ok (JStr (u "otpauth://a")).
Proof.
  refine (find_otpauth_sound (JList example_sections) (u "otpauth://a") _).
  vm_compute. reflexivity.
Defined.
